(** * OneDrive browser: the remote filesystem adapter and its delta engine

    A shallow embedding of [src/web/onedrive-filesystem-provider.ts]
    ([OneDriveFileSystemProvider]) and [src/web/onedrive-types.ts]
    ([OneDriveClient], [ResponseError], [DeltaResultInteractor]).

    Conventions of the embedding.
    - An optional property [p?: T] is an [option T]; an optional object is
      truthy exactly when it is present, an optional string when it is present
      and not empty.
    - A JavaScript [Map] is an association list in insertion order.
    - Strings are sequences of code units; the inputs used below are ASCII.
    - A timestamp string is kept as the instant [new Date(s).getTime()]
      denotes: [Some ms], or [None] for [NaN] (a text that does not parse).
    - [async] functions are functions into [outcome]: a promise that resolves,
      rejects, or (for the recursive and looping parts, which run on fuel)
      does not settle within the fuel given. *)

From stdpp Require Import base option list strings.
From Stdlib Require Import Ascii ZArith Lia.

Local Open Scope string_scope.
Local Open Scope list_scope.
Local Open Scope Z_scope.

(** ** JavaScript values used by the code *)

Module Js.

(** [ToBoolean] of an optional object: present objects are truthy. *)
Definition truthy_obj {A : Type} (o : option A) : bool :=
  match o with Some _ => true | None => false end.

(** [ToBoolean] of an optional string: [undefined] and [''] are falsy. *)
Definition truthy_str (o : option string) : bool :=
  match o with
  | Some s => negb (String.eqb s "")
  | None => false
  end.

(** [o === s] for an optional string [o] and a string [s]. *)
Definition strict_eq (o : option string) (s : string) : bool :=
  match o with Some t => String.eqb t s | None => false end.

(** [s.slice(start)] for [start >= 0]. *)
Fixpoint slice (start : nat) (s : string) : string :=
  match start, s with
  | O, _ => s
  | S _, EmptyString => EmptyString
  | S n, String _ t => slice n t
  end.

(** [s.startsWith(p)]. *)
Fixpoint startsWith (s p : string) : bool :=
  match p, s with
  | EmptyString, _ => true
  | String _ _, EmptyString => false
  | String a p', String b s' => Ascii.eqb a b && startsWith s' p'
  end.

(** [s.replace(/^\/+/, '')]: drop the leading slashes. *)
Fixpoint stripLeadingSlashes (s : string) : string :=
  match s with
  | String c t => if Ascii.eqb c "/"%char then stripLeadingSlashes t else s
  | EmptyString => EmptyString
  end.

(** An instant in milliseconds since the epoch; [None] is [NaN]. *)
Definition DateTime := option Z.

(** [new Date(x)] is an object, whatever [x] is (also an invalid date). *)
Inductive Date := NewDate (t : DateTime).

Definition getTime (d : Date) : DateTime := let 'NewDate t := d in t.

(** [ToBoolean] of a [Date] object. *)
Definition truthy_Date (d : Date) : bool := let 'NewDate _ := d in true.

(** [a > b] on numbers: false as soon as one side is [NaN]. *)
Definition gt (a b : DateTime) : bool :=
  match a, b with
  | Some x, Some y => y <? x
  | _, _ => false
  end.

(** A [Map<string, V>]: [set] keeps the position of a key that is already
    there and appends a new one; [values()] runs in insertion order. *)
Definition Map (V : Type) := list (string * V).

Fixpoint Map_set {V : Type} (k : string) (v : V) (m : Map V) : Map V :=
  match m with
  | [] => [(k, v)]
  | (k', v') :: m' =>
      if String.eqb k' k then (k, v) :: m' else (k', v') :: Map_set k v m'
  end.

Fixpoint Map_get {V : Type} (m : Map V) (k : string) : option V :=
  match m with
  | [] => None
  | (k', v) :: m' => if String.eqb k' k then Some v else Map_get m' k
  end.

Definition Map_values {V : Type} (m : Map V) : list V := map snd m.

Definition Map_keys {V : Type} (m : Map V) : list string := map fst m.

(** [s.lastIndexOf(c)] for a one-character [c]: the index of its last
    occurrence, or -1. *)
Fixpoint lastIndexOf (s : string) (c : ascii) : Z :=
  match s with
  | EmptyString => -1
  | String a t =>
      let r := lastIndexOf t c in
      if 0 <=? r then r + 1 else if Ascii.eqb a c then 0 else -1
  end.

(** The first [n] code units of [s]. *)
Fixpoint take (n : nat) (s : string) : string :=
  match n, s with
  | S n', String a t => String a (take n' t)
  | _, _ => EmptyString
  end.

(** An index argument of [slice] brought into [0 .. len]: a negative one
    counts from the end. *)
Definition clampIndex (len i : Z) : Z :=
  if i <? 0 then Z.max (len + i) 0 else Z.min i len.

(** [s.slice(start, stop)]. *)
Definition sliceRange (s : string) (start stop : Z) : string :=
  let len := Z.of_nat (String.length s) in
  let from := clampIndex len start in
  let to := clampIndex len stop in
  take (Z.to_nat (to - from)) (slice (Z.to_nat from) s).

(** [parts.join(sep)]. *)
Fixpoint join (sep : string) (parts : list string) : string :=
  match parts with
  | [] => ""
  | [x] => x
  | x :: rest => x +:+ sep +:+ join sep rest
  end.

End Js.

(** ** onedrive-types.ts: the wire types *)

Module Children.

Record ParentReference := {
  pr_driveId : string;
  pr_id : string;
  pr_path : option string;
}.

(** The properties of a drive item the adapter reads. *)
Record DriveItem := {
  createdDateTime : Js.DateTime;
  id : string;
  name : string;
  parentReference : option ParentReference;
  root : option unit;
  folder : option unit;
  deleted : option string;
}.

End Children.
Import Children.

Definition driveRootPrefix : string := "/drive/root:".

(** ** DeltaResultInteractor *)

Record DeltaResultInteractor := {
  results : Js.Map DriveItem;
  lastUpdated : Js.DateTime;
  next : option string;
}.

Definition isNew (this : DeltaResultInteractor) (item : DriveItem) : bool :=
  Js.gt (Js.getTime (Js.NewDate (createdDateTime item))) (lastUpdated this).

(** [getPathForItem] calls itself on the parent found in the snapshot. Each
    call spends one unit of [fuel]; [None] says the fuel ran out before the
    call returned. *)
Fixpoint getPathForItem (fuel : nat) (snapshot : Js.Map DriveItem)
    (item : DriveItem) : option string :=
  match fuel with
  | O => None
  | S fuel' =>
      if Js.truthy_obj (root item) then Some ""
      else
        match parentReference item with
        | None => Some (name item)
        | Some ref =>
            if Js.strict_eq (pr_path ref) driveRootPrefix then Some (name item)
            else if Js.truthy_str (pr_path ref) then
              Some (Js.slice (String.length driveRootPrefix + 1)%nat
                             (default "" (pr_path ref))
                    +:+ "/" +:+ name item)
            else
              match Js.Map_get snapshot (pr_id ref) with
              | Some parentItem =>
                  match getPathForItem fuel' snapshot parentItem with
                  | Some p => Some (p +:+ "/" +:+ name item)
                  | None => None
                  end
              | None => Some (name item)
              end
        end
  end.

(** The parent of an item inside one snapshot, by the id of its parent
    reference. *)
Definition parentIn (snapshot : Js.Map DriveItem) (item : DriveItem)
    : option (string * DriveItem) :=
  ref ← parentReference item;
  p ← Js.Map_get snapshot (pr_id ref);
  Some (pr_id ref, p).

(** [climb snapshot i ks j]: going up from [i] through the parent ids [ks]
    arrives at [j]. *)
Inductive climb (snapshot : Js.Map DriveItem)
    : DriveItem → list string → DriveItem → Prop :=
  | climb_here i : climb snapshot i [] i
  | climb_up i k p ks j :
      parentIn snapshot i = Some (k, p) →
      climb snapshot p ks j →
      climb snapshot i (k :: ks) j.

(** No item of the snapshot is its own ancestor. *)
Definition acyclic (snapshot : Js.Map DriveItem) : Prop :=
  ∀ k i ks, Js.Map_get snapshot k = Some i → ks ≠ [] → ¬ climb snapshot i ks i.

(** ** Promises and errors *)

Inductive JsError :=
  | ResponseError (status : Z) (url : string) (body : string)
  | TypeError (msg : string)
  | SyntaxError (msg : string)
  | Error (msg : string).

(** [ResponseError.is(e, statusCode)]. *)
Definition ResponseError_is (e : JsError) (statusCode : Z) : bool :=
  match e with
  | ResponseError status _ _ => status =? statusCode
  | _ => false
  end.

(** How an awaited promise ends. [Pending] is a computation the fuel did not
    see through. *)
Inductive outcome (A : Type) :=
  | Resolved (a : A)
  | Rejected (e : JsError)
  | Pending.
Arguments Resolved {A} a.
Arguments Rejected {A} e.
Arguments Pending {A}.

#[global] Instance outcome_ret : MRet outcome := λ A a, Resolved a.
#[global] Instance outcome_bind : MBind outcome := λ A B k m,
  match m with
  | Resolved a => k a
  | Rejected e => Rejected e
  | Pending => Pending
  end.

(** ** The remote service *)

Inductive Method := GET | POST | PUT | PATCH | DELETE.

Record Request := {
  method : Method;
  url : string;
  authorization : string;
}.

(** A JSON body with the properties the client reads: [DeltaResponse] and
    [Children.Response] are both views of it. *)
Record JsonBody := {
  odata_deltaLink : option string;
  odata_nextLink : option string;
  value : list DriveItem;
}.

Record Response := {
  status : Z;
  header_Date : option Js.DateTime;
  json : option JsonBody;
  text : option string;
}.

Definition ok (r : Response) : bool := (200 <=? status r) && (status r <=? 299).

(** What the global [fetch] does with a request: an answer of the service, or
    a failure of the transport. *)
Inductive Net := Answer (r : Response) | NetworkFailure (msg : string).

Definition Remote := Request → Net.

(** ** OneDriveClient *)

Definition graphRoot : string := "https://graph.microsoft.com/v1.0/".

Record OneDriveClient := { accessToken : string }.

Definition client_fetch (this : OneDriveClient) (remote : Remote)
    (m : Method) (route : string) : outcome Response :=
  let target := if Js.startsWith route "https:" then route else graphRoot +:+ route in
  match remote {| method := m; url := target;
                  authorization := "Bearer " +:+ accessToken this |} with
  | NetworkFailure msg => Rejected (TypeError msg)
  | Answer response =>
      if ok response then Resolved response
      else Rejected (ResponseError (status response) target
                       (default "<unreadable>" (text response)))
  end.

(** [response.json()]. *)
Definition Response_json (r : Response) : outcome JsonBody :=
  match json r with
  | Some b => Resolved b
  | None => Rejected (SyntaxError "Unexpected token")
  end.

Definition fetchJson (this : OneDriveClient) (remote : Remote)
    (m : Method) (route : string) : outcome JsonBody :=
  response ← client_fetch this remote m route;
  Response_json response.

Definition getRootChildren (this : OneDriveClient) (remote : Remote)
    (driveId : string) : outcome JsonBody :=
  fetchJson this remote GET ("drives/" +:+ driveId +:+ "/root/children").

Definition getNestedChildren (this : OneDriveClient) (remote : Remote)
    (driveId itemId : string) : outcome JsonBody :=
  fetchJson this remote GET
    ("drives/" +:+ driveId +:+ "/items/" +:+ itemId +:+ "/children").

(** [new DeltaResultInteractor(res, dateHeader)]; [now] is [Date.now()]. *)
Definition newDeltaResultInteractor (res : JsonBody)
    (dateHeader : option Js.DateTime) (now : Z) : DeltaResultInteractor :=
  {| lastUpdated :=
       match dateHeader with
       | Some t => Js.getTime (Js.NewDate t)
       | None => Some now
       end;
     next := odata_deltaLink res;
     results :=
       fold_left (λ m item, Js.Map_set (id item) item m) (value res) [] |}.

(** The [while (response['@odata.nextLink'])] loop of [loadDelta]: one unit of
    fuel for each further page. *)
Fixpoint followPages (fuel : nat) (this : OneDriveClient) (remote : Remote)
    (response : JsonBody) {struct fuel} : outcome JsonBody :=
  if Js.truthy_str (odata_nextLink response) then
    match fuel with
    | O => Pending
    | S fuel' =>
        next ← fetchJson this remote GET (default "" (odata_nextLink response));
        followPages fuel' this remote
          {| value := value response ++ value next;
             odata_deltaLink := odata_deltaLink next;
             odata_nextLink := odata_nextLink next |}
    end
  else Resolved response.

(** The response [loadDelta] hands to the interactor, with the [Date] header
    of the first page. *)
Definition loadDeltaResponse (fuel : nat) (this : OneDriveClient)
    (remote : Remote) (routeOrUrl : option string)
    : outcome (JsonBody * option Js.DateTime) :=
  match routeOrUrl with
  | None => Rejected (TypeError "Cannot read properties of undefined")
  | Some route =>
      res ← client_fetch this remote GET route;
      let currentDate := header_Date res in
      response ← Response_json res;
      response ← followPages fuel this remote response;
      mret (response, currentDate)
  end.

Definition loadDelta (fuel : nat) (this : OneDriveClient) (remote : Remote)
    (now : Z) (routeOrUrl : option string) : outcome DeltaResultInteractor :=
  '(response, currentDate) ← loadDeltaResponse fuel this remote routeOrUrl;
  mret (newDeltaResultInteractor response currentDate now).

(** ** The change events of one round *)

Inductive FileChangeType := Changed | Created | Deleted.

Record Change := { type : FileChangeType; path : string }.

(** The body of the [map] callback in [watch], once [path] is known. *)
Definition changeOf (value : DriveItem) (p : string) : Change :=
  if Js.truthy_obj (deleted value) then {| type := Deleted; path := p |}
  else if Js.truthy_Date (Js.NewDate (createdDateTime value))
       then {| type := Created; path := p |}
       else {| type := Changed; path := p |}.

(** [[...next].map(...)]; [None] when a path resolution ran out of fuel. *)
Definition changes (fuel : nat) (next : DeltaResultInteractor)
    : option (list Change) :=
  mapM (λ value,
          p ← getPathForItem fuel (results next) value;
          Some (changeOf value p))
       (Js.Map_values (results next)).

(** ** The watch generator

    The generator is suspended at three places in each round: in the sleep,
    in [loadDelta], and at [yield]. A [Round] says what the world does while
    it is suspended there: whether the token is cancelled meanwhile, and what
    the service answers. The sleep ends with the timer or with the
    cancellation, whichever comes first; how long that takes is not part of
    the model, and neither is the [interval]. *)
Record Round := {
  cancelWhileWaiting : bool;
  remote : Remote;
  now : Z;
  cancelWhileFetching : bool;
  cancelWhileYielded : bool;
}.

(** How the generator stands after the rounds given: it has returned
    ([Stopped]), it has thrown ([Failed]), the next sleep is still on
    ([Suspended]), or a computation inside did not return within the fuel
    ([Stuck]: pages that never end, or the recursion over a snapshot with a
    cycle, which JavaScript ends with a stack overflow). *)
Inductive Ending :=
  | Stopped
  | Failed (e : JsError)
  | Stuck
  | Suspended (results : DeltaResultInteractor).

(** The [while (!ct.isCancellationRequested)] loop over the rounds the world
    provides; [ct] is [ct.isCancellationRequested]. The batches are the
    values yielded, in order. *)
Fixpoint watchLoop (fuel : nat) (this : OneDriveClient)
    (results : DeltaResultInteractor) (ct : bool) (rounds : list Round)
    : list (list Change) * Ending :=
  if ct then ([], Stopped)
  else
    match rounds with
    | [] => ([], Suspended results)
    | r :: rounds' =>
        if cancelWhileWaiting r then ([], Stopped)
        else
          match loadDelta fuel this (remote r) (now r) (next results) with
          | Rejected e => ([], Failed e)
          | Pending => ([], Stuck)
          | Resolved next =>
              if cancelWhileFetching r then ([], Stopped)
              else
                match changes fuel next with
                | None => ([], Stuck)
                | Some batch =>
                    let '(batches, ending) :=
                      watchLoop fuel this next (cancelWhileYielded r) rounds' in
                    (batch :: batches, ending)
                end
          end
    end.

(** What the world does while the baseline is loaded. *)
Record Start := {
  startRemote : Remote;
  startNow : Z;
  cancelWhileStarting : bool;
}.

Definition watch (fuel : nat) (this : OneDriveClient) (driveId : string)
    (start : Start) (rounds : list Round) : list (list Change) * Ending :=
  match loadDelta fuel this (startRemote start) (startNow start)
          (Some ("drives/" +:+ driveId +:+ "/items/root/delta")) with
  | Rejected e => ([], Failed e)
  | Pending => ([], Stuck)
  | Resolved results =>
      watchLoop fuel this results (cancelWhileStarting start) rounds
  end.

(** The promise [watch] awaits between two polls: a timer of [interval]
    milliseconds and a listener on the token, of which the first to come
    resolves the promise and takes the other away (the timer disposes of the
    listener, the listener clears the timer). [cancelAfter] is the time into
    the sleep at which the token is cancelled, if it is. *)
Record Sleep := { elapsed : Z; interrupted : bool }.

Definition sleep (interval : Z) (cancelAfter : option Z) : Sleep :=
  match cancelAfter with
  | Some t =>
      if t <? interval then {| elapsed := t; interrupted := true |}
      else {| elapsed := interval; interrupted := false |}
  | None => {| elapsed := interval; interrupted := false |}
  end.

(** The round [r] with its sleep played out: whether the token is cancelled
    while the generator waits is what the sleep says. *)
Definition sleeping (interval : Z) (cancelAfter : option Z) (r : Round)
    : Round :=
  {| cancelWhileWaiting := interrupted (sleep interval cancelAfter);
     remote := remote r;
     now := now r;
     cancelWhileFetching := cancelWhileFetching r;
     cancelWhileYielded := cancelWhileYielded r |}.

(** [OneDriveClient.delete]; [encodeURI] is the built-in. *)
Definition client_delete (encodeURI : string → string) (this : OneDriveClient)
    (remote : Remote) (driveId path : string) : outcome unit :=
  match client_fetch this remote DELETE
          ("drives/" +:+ driveId +:+ "/items/root:/" +:+ encodeURI path) with
  | Resolved _ => Resolved tt
  | Rejected e => if negb (ResponseError_is e 404) then Rejected e else Resolved tt
  | Pending => Pending
  end.

(** ** The other calls of the client

    A request may carry a body; the service sees it. The JSON bodies are kept
    as the objects that are stringified. *)
Inductive Body :=
  | FolderBody (folderName : string)
  | TargetBody (newName newParentId : string)
  | ContentBody (content : list Byte.byte) (mimeType : option string).

Definition Service := Request → option Body → Net.

(** What the service answers to requests with the body [body]. *)
Definition sending (service : Service) (body : option Body) : Remote :=
  λ request, service request body.

(** A drive item with the two further properties [stat] reads. *)
Record Metadata := {
  md_item : DriveItem;
  md_lastModifiedDateTime : Js.DateTime;
  md_size : Z;
}.

(** What is built into the platform: [encodeURI], the JSON of a body read as
    a drive item ([None] when the body is not JSON), and the bytes of a
    body. *)
Record Builtins := {
  uriEncode : string → string;
  jsonItem : Response → option Metadata;
  arrayBuffer : Response → list Byte.byte;
}.

(** [fetchJson] where a drive item is expected. *)
Definition fetchItem (b : Builtins) (this : OneDriveClient) (service : Service)
    (m : Method) (route : string) (body : option Body) : outcome Metadata :=
  response ← client_fetch this (sending service body) m route;
  match jsonItem b response with
  | Some item => Resolved item
  | None => Rejected (SyntaxError "Unexpected token")
  end.

Definition getFileMetadata (b : Builtins) (this : OneDriveClient)
    (service : Service) (driveId filePath : string) : outcome Metadata :=
  fetchItem b this service GET
    ("drives/" +:+ driveId +:+ "/root:/" +:+ filePath) None.

Definition createFolder (b : Builtins) (this : OneDriveClient)
    (service : Service) (driveId parentId folderName : string)
    : outcome Metadata :=
  fetchItem b this service POST
    ("drives/" +:+ driveId +:+ "/items/" +:+ parentId +:+ "/children")
    (Some (FolderBody folderName)).

Definition downloadFile (b : Builtins) (this : OneDriveClient)
    (service : Service) (driveId filePath : string)
    : outcome (list Byte.byte) :=
  res ← client_fetch this (sending service None) GET
          ("drives/" +:+ driveId +:+ "/items/root:/" +:+ uriEncode b filePath
           +:+ ":/content");
  mret (arrayBuffer b res).

Definition move (b : Builtins) (this : OneDriveClient) (service : Service)
    (driveId itemId newParentId newName : string) : outcome Metadata :=
  fetchItem b this service PATCH
    ("drives/" +:+ driveId +:+ "/items/" +:+ itemId)
    (Some (TargetBody newName newParentId)).

Definition client_copy (b : Builtins) (this : OneDriveClient)
    (service : Service) (driveId itemId newParentId newName : string)
    : outcome Metadata :=
  fetchItem b this service POST
    ("drives/" +:+ driveId +:+ "/items/" +:+ itemId +:+ "/copy")
    (Some (TargetBody newName newParentId)).

Definition saveFile (b : Builtins) (this : OneDriveClient) (service : Service)
    (driveId filename : string) (content : list Byte.byte)
    (mimeType : option string) : outcome Metadata :=
  fetchItem b this service PUT
    ("drives/" +:+ driveId +:+ "/items/root:/" +:+ uriEncode b filename
     +:+ ":/content")
    (Some (ContentBody content
             (if Js.truthy_str mimeType then mimeType else None))).

(** ** ClientProvider *)

(** The authentication session, asked for once and shared: the access token,
    or the rejection of [getSession]. *)
Record ClientProvider := { session : outcome string }.

Definition demandForFs (this : ClientProvider) : outcome OneDriveClient :=
  token ← session this;
  mret {| accessToken := token |}.

(** The provider of clients over time. [vscode.authentication.getSession]
    gives [authentication n] when it is called for the [n]th time; the field
    [session] is not set ([None]) until [getSession] has run once. *)
Record SignIn := {
  provider : option ClientProvider;
  asked : nat;
}.

Definition signedOut : SignIn := {| provider := None; asked := O |}.

(** [getSession]: [this.session ??= ...; return this.session]. *)
Definition getSession (authentication : nat → outcome string) (st : SignIn)
    : SignIn * ClientProvider :=
  match provider st with
  | Some p => (st, p)
  | None =>
      let p := {| session := authentication (asked st) |} in
      ({| provider := Some p; asked := S (asked st) |}, p)
  end.

(** A call of [demandForFs] on the provider in the state [st]. *)
Definition demand (authentication : nat → outcome string) (st : SignIn)
    : SignIn * outcome OneDriveClient :=
  let '(st', p) := getSession authentication st in
  (st', demandForFs p).

(** [n] calls of [demandForFs] one after the other, with what each gave. *)
Fixpoint demands (authentication : nat → outcome string) (n : nat)
    (st : SignIn) : SignIn * list (outcome OneDriveClient) :=
  match n with
  | O => (st, [])
  | S n' =>
      let '(st', r) := demand authentication st in
      let '(st'', rs) := demands authentication n' st' in
      (st'', r :: rs)
  end.

(** [request]. Calling the async [demandForFs] does not throw, and the
    promise it gives is returned, not awaited: the [catch] clause, which
    would give [undefined], is passed by. *)
Definition request (authentication : nat → outcome string) (st : SignIn)
    : SignIn * outcome (option OneDriveClient) :=
  let '(st', promise) := demand authentication st in
  (st', client ← promise; mret (Some client)).

(** ** OneDriveFileSystemProvider *)

Record Uri := { uri_scheme : string; uri_authority : string; uri_path : string }.

(** What a call of an [async] method leaves behind: the promise it returns to
    its caller, and the promises it started and did not await. *)
Record Call (A : Type) := {
  returned : outcome A;
  floating : list (outcome unit);
}.
Arguments returned {A} c.
Arguments floating {A} c.

(** [private watcher?: { count; cts }]; a token source is named by the order
    of its creation. *)
Record Watcher := { count : Z; cts : nat }.

(** What the provider does to polling loops: the task that runs
    [client.watch(driveId, 10_000, cts.token)] is set up, or [cts.cancel()]
    is called. *)
Inductive Effect :=
  | LoopStarted (source : nat) (driveId : string)
  | LoopCancelled (source : nat).

(** The closure [watch] returns: the [uri] it was called with and its
    [disposed] variable. *)
Record Handle := { requested : Uri; disposed : bool }.

Record Provider := {
  watcher : option Watcher;
  handles : list Handle;
  sources : nat;
  effects : list Effect;
}.

(** How a call of the provider ends for the host: with a value, with
    [FileSystemError.FileNotFound(uri)], with another error, or not within
    the fuel. *)
Inductive FsOutcome (A : Type) :=
  | Done (a : A)
  | FileNotFound (uri : Uri)
  | Thrown (e : JsError)
  | Unsettled.
Arguments Done {A} a.
Arguments FileNotFound {A} uri.
Arguments Thrown {A} e.
Arguments Unsettled {A}.

#[global] Instance FsOutcome_ret : MRet FsOutcome := λ A a, Done a.
#[global] Instance FsOutcome_bind : MBind FsOutcome := λ A B k m,
  match m with
  | Done a => k a
  | FileNotFound uri => FileNotFound uri
  | Thrown e => Thrown e
  | Unsettled => Unsettled
  end.

(** A promise of the client, awaited outside any [try]. *)
Definition awaited {A : Type} (o : outcome A) : FsOutcome A :=
  match o with
  | Resolved a => Done a
  | Rejected e => Thrown e
  | Pending => Unsettled
  end.

(** The [try { ... } catch (e)] that [stat], [readDirectory], [readFile] and
    [getItemIdForPath] wrap around their calls: a 404 becomes
    [FileNotFound(uri)], anything else is thrown again. *)
Definition orFileNotFound {A : Type} (uri : Uri) (o : outcome A) : FsOutcome A :=
  match o with
  | Resolved a => Done a
  | Rejected e => if ResponseError_is e 404 then FileNotFound uri else Thrown e
  | Pending => Unsettled
  end.

(** [await Promise.all([a, b])]. When both reject, the one that settles
    first decides; [rightFirst] says it is [b]. *)
Definition Promise_all {A B : Type} (rightFirst : bool)
    (a : FsOutcome A) (b : FsOutcome B) : FsOutcome (A * B) :=
  match a, b with
  | Done x, Done y => Done (x, y)
  | Done _, FileNotFound u => FileNotFound u
  | Done _, Thrown e => Thrown e
  | Done _, Unsettled => Unsettled
  | FileNotFound u, (Done _ | Unsettled) => FileNotFound u
  | Thrown e, (Done _ | Unsettled) => Thrown e
  | Unsettled, Done _ => Unsettled
  | Unsettled, FileNotFound u => FileNotFound u
  | Unsettled, Thrown e => Thrown e
  | Unsettled, Unsettled => Unsettled
  | FileNotFound u, FileNotFound u' => FileNotFound (if rightFirst then u' else u)
  | FileNotFound u, Thrown e => if rightFirst then Thrown e else FileNotFound u
  | Thrown e, FileNotFound u => if rightFirst then FileNotFound u else Thrown e
  | Thrown e, Thrown e' => Thrown (if rightFirst then e' else e)
  end.

Inductive FileType := File | Directory.

Record FileStat := {
  ctime : Js.DateTime;
  mtime : Js.DateTime;
  size : Z;
  fileType : FileType;
}.

Module FileSystemProvider.

Definition scheme : string := "onedrive".

(** A synchronous function that may throw: [Rejected] is the exception. *)
Definition parseUri (uri : Uri) : outcome (string * string) :=
  if negb (String.eqb (uri_scheme uri) scheme)
  then Rejected (Error ("Unsupported scheme: " +:+ uri_scheme uri))
  else Resolved (uri_authority uri, Js.stripLeadingSlashes (uri_path uri)).

Definition initial : Provider :=
  {| watcher := None; handles := []; sources := O; effects := [] |}.

(** [watch(uri, options)]: the new state, and the index of the handle
    returned (or the exception thrown). *)
Definition watch (uri : Uri) (this : Provider) : Provider * outcome nat :=
  let handle := {| requested := uri; disposed := false |} in
  match watcher this with
  | Some w =>
      ({| watcher := Some {| count := count w + 1; cts := cts w |};
          handles := handles this ++ [handle];
          sources := sources this;
          effects := effects this |},
       Resolved (length (handles this)))
  | None =>
      match parseUri uri with
      | Resolved (driveId, _) =>
          let source := sources this in
          ({| watcher := Some {| count := 1; cts := source |};
              handles := handles this ++ [handle];
              sources := S source;
              effects := effects this ++ [LoopStarted source driveId] |},
           Resolved (length (handles this)))
      | Rejected e => (this, Rejected e)
      | Pending => (this, Pending)
      end
  end.

(** The [if] of the [dispose] closure, for a handle whose [disposed] is
    still false. *)
Definition release (this : Provider) : Provider :=
  match watcher this with
  | Some w =>
      let w' := {| count := count w - 1; cts := cts w |} in
      if count w' =? 0 then
        {| watcher := None;
           handles := handles this;
           sources := sources this;
           effects := effects this ++ [LoopCancelled (cts w')] |}
      else
        {| watcher := Some w';
           handles := handles this;
           sources := sources this;
           effects := effects this |}
  | None => this
  end.

(** [dispose()] of the handle with index [h]. *)
Definition dispose (h : nat) (this : Provider) : Provider :=
  match handles this !! h with
  | None => this
  | Some handle =>
      let this' := if negb (disposed handle) then release this else this in
      {| watcher := watcher this';
         handles := <[h := {| requested := requested handle; disposed := true |}]>
                      (handles this');
         sources := sources this';
         effects := effects this' |}
  end.

(** [delete(uri, options)]. The promise of [client.delete] is not awaited. *)
Definition delete (encodeURI : string → string) (client : ClientProvider)
    (remote : Remote) (uri : Uri) : Call unit :=
  match parseUri uri with
  | Resolved (driveId, p) =>
      match demandForFs client with
      | Resolved c =>
          {| returned := Resolved tt;
             floating := [client_delete encodeURI c remote driveId p] |}
      | Rejected e => {| returned := Rejected e; floating := [] |}
      | Pending => {| returned := Pending; floating := [] |}
      end
  | Rejected e => {| returned := Rejected e; floating := [] |}
  | Pending => {| returned := Pending; floating := [] |}
  end.

(** [writeFile(uri, content)], where [client.saveFile] is awaited. *)
Definition writeFile (encodeURI : string → string) (client : ClientProvider)
    (remote : Remote) (uri : Uri) : Call unit :=
  match parseUri uri with
  | Resolved (driveId, p) =>
      match demandForFs client with
      | Resolved c =>
          {| returned :=
               _ ← fetchJson c remote PUT
                     ("drives/" +:+ driveId +:+ "/items/root:/"
                      +:+ encodeURI p +:+ ":/content");
               mret tt;
             floating := [] |}
      | Rejected e => {| returned := Rejected e; floating := [] |}
      | Pending => {| returned := Pending; floating := [] |}
      end
  | Rejected e => {| returned := Rejected e; floating := [] |}
  | Pending => {| returned := Pending; floating := [] |}
  end.

(** The calls the host makes on one provider. *)
Inductive Op := Watch (uri : Uri) | Dispose (h : nat).

Definition step (this : Provider) (op : Op) : Provider :=
  match op with
  | Watch uri => fst (watch uri this)
  | Dispose h => dispose h this
  end.

Definition run (ops : list Op) : Provider := fold_left step ops initial.

(** The reference count: [watcher.count], or 0 without a watcher. *)
Definition refCount (this : Provider) : Z :=
  match watcher this with Some w => count w | None => 0 end.

(** The handles not yet disposed. *)
Definition live (this : Provider) : list Handle :=
  filter (λ h, disposed h = false) (handles this).

Definition liveFor (driveId : string) (this : Provider) : list Handle :=
  filter (λ h, uri_authority (requested h) = driveId) (live this).

(** The token sources started, cancelled, and the loops still going, read
    off the effects in order. *)
Definition started (es : list Effect) : list nat :=
  omap (λ e, match e with LoopStarted s _ => Some s | _ => None end) es.

Definition cancelled (es : list Effect) : list nat :=
  omap (λ e, match e with LoopCancelled s => Some s | _ => None end) es.

Definition active (es : list Effect) : list nat :=
  filter (λ s, s ∉ cancelled es) (started es).

Definition activeFor (driveId : string) (es : list Effect) : list nat :=
  omap (λ e, match e with
             | LoopStarted s d =>
                 if bool_decide (d = driveId ∧ s ∉ cancelled es)
                 then Some s else None
             | _ => None
             end) es.

(** [parentUri] and [basename] of the provider module. Of [uri.with] only
    the replacement of the path is modelled. *)
Definition parentUri (uri : Uri) : Uri :=
  let index := Js.lastIndexOf (uri_path uri) "/" in
  {| uri_scheme := uri_scheme uri;
     uri_authority := uri_authority uri;
     uri_path := Js.sliceRange (uri_path uri) 0 index |}.

Definition basename (uri : Uri) : string :=
  let index := Js.lastIndexOf (uri_path uri) "/" in
  Js.slice (Z.to_nat (index + 1)) (uri_path uri).

(** The events [watch] fires for one batch of the generator. *)
Record FileChangeEvent := { eventType : FileChangeType; eventUri : Uri }.

Definition fileChangeEvents (driveId : string) (batch : list Change)
    : list FileChangeEvent :=
  map (λ change,
         {| eventType := type change;
            eventUri := {| uri_scheme := scheme;
                           uri_authority := driveId;
                           uri_path := "/" +:+ path change |} |})
      batch.

(** [getItemIdForPath]: everything is inside the [try]. *)
Definition getItemIdForPath (b : Builtins) (client : ClientProvider)
    (service : Service) (uri : Uri) : FsOutcome string :=
  orFileNotFound uri
    ('(driveId, p) ← parseUri uri;
     c ← demandForFs client;
     metadata ← getFileMetadata b c service driveId p;
     mret (id (md_item metadata))).

Definition fileTypeOf (item : DriveItem) : FileType :=
  if Js.truthy_obj (folder item) then Directory else File.

(** [stat]: the uri is parsed and the client demanded before the [try]. *)
Definition stat (b : Builtins) (client : ClientProvider) (service : Service)
    (uri : Uri) : FsOutcome FileStat :=
  '(driveId, p) ← awaited (parseUri uri);
  c ← awaited (demandForFs client);
  orFileNotFound uri
    (metadata ← getFileMetadata b c service driveId p;
     mret {| ctime := Js.getTime (Js.NewDate (createdDateTime (md_item metadata)));
             mtime := Js.getTime (Js.NewDate (md_lastModifiedDateTime metadata));
             size := md_size metadata;
             fileType := fileTypeOf (md_item metadata) |}).

Definition readDirectory (b : Builtins) (client : ClientProvider)
    (service : Service) (uri : Uri) : FsOutcome (list (string * FileType)) :=
  '(driveId, _) ← awaited (parseUri uri);
  c ← awaited (demandForFs client);
  parentId ← getItemIdForPath b client service uri;
  orFileNotFound uri
    (children ← getNestedChildren c (sending service None) driveId parentId;
     mret (map (λ item, (name item, fileTypeOf item)) (value children))).

Definition createDirectory (b : Builtins) (client : ClientProvider)
    (service : Service) (uri : Uri) : FsOutcome unit :=
  '(driveId, _) ← awaited (parseUri uri);
  parentId ← getItemIdForPath b client service (parentUri uri);
  c ← awaited (demandForFs client);
  _ ← awaited (createFolder b c service driveId parentId (basename uri));
  mret tt.

(** [readFile]: everything is inside the [try]. *)
Definition readFile (b : Builtins) (client : ClientProvider)
    (service : Service) (uri : Uri) : FsOutcome (list Byte.byte) :=
  orFileNotFound uri
    ('(driveId, p) ← parseUri uri;
     c ← demandForFs client;
     downloadFile b c service driveId p).

Definition rename (b : Builtins) (client : ClientProvider) (service : Service)
    (rightFirst : bool) (oldUri newUri : Uri) : FsOutcome unit :=
  '(driveId, _) ← awaited (parseUri oldUri);
  '(itemId, newParentId) ←
    Promise_all rightFirst
      (getItemIdForPath b client service oldUri)
      (getItemIdForPath b client service (parentUri newUri));
  c ← awaited (demandForFs client);
  _ ← awaited (move b c service driveId itemId newParentId (basename newUri));
  mret tt.

Definition copy (b : Builtins) (client : ClientProvider) (service : Service)
    (rightFirst : bool) (source destination : Uri) : FsOutcome unit :=
  '(driveId, _) ← awaited (parseUri source);
  '(itemId, newParentId) ←
    Promise_all rightFirst
      (getItemIdForPath b client service source)
      (getItemIdForPath b client service (parentUri destination));
  c ← awaited (demandForFs client);
  _ ← awaited (client_copy b c service driveId itemId newParentId
                 (basename destination));
  mret tt.

End FileSystemProvider.

(** ** open-onedrive-command.ts *)

Module MyDrives.

Record GraphIdentity := { displayName : string; identityId : string }.

(** The owner object; a property is [Some] when the object has that key. *)
Record Owner := {
  user : option GraphIdentity;
  application : option GraphIdentity;
  device : option GraphIdentity;
}.

Record Drive := {
  driveId : string;
  driveName : option string;
  owner : Owner;
}.

Definition getOwnerIdentity (value : Drive) : option GraphIdentity :=
  match user (owner value) with
  | Some who => Some who
  | None =>
      match application (owner value) with
      | Some who => Some who
      | None => device (owner value)
      end
  end.

End MyDrives.

Module OpenOneDrive.

Inductive ItemAction := browse | open.

(** The label of a drive in the picker:
    [drive.name || getOwnerIdentity(drive)?.displayName || 'Unnamed Drive']. *)
Definition driveLabel (drive : MyDrives.Drive) : string :=
  if Js.truthy_str (MyDrives.driveName drive)
  then default "" (MyDrives.driveName drive)
  else
    let ownerName :=
      MyDrives.displayName <$> MyDrives.getOwnerIdentity drive in
    if Js.truthy_str ownerName then default "" ownerName
    else "Unnamed Drive".

Record DrivePickItem := {
  pickDriveId : string;
  label : string;
  description : string;
}.

(** The items [pickDriveId] shows for the drives of the user. *)
Definition driveItems (drives : list MyDrives.Drive) : list DrivePickItem :=
  map (λ drive, {| pickDriveId := MyDrives.driveId drive;
                   label := driveLabel drive;
                   description := MyDrives.driveId drive |})
      drives.

(** What the user does with the drive picker: the button of an item, accept
    (with the selected item, if any), or hide. *)
Inductive DriveChoice :=
  | DriveButton (item : DrivePickItem)
  | DriveAccepted (selected : option DrivePickItem)
  | DriveHidden.

Definition pickDriveId_result (choice : DriveChoice)
    : option (string * ItemAction) :=
  match choice with
  | DriveButton item => Some (pickDriveId item, open)
  | DriveAccepted selected =>
      let driveId := pickDriveId <$> selected in
      if Js.truthy_str driveId then Some (default "" driveId, browse) else None
  | DriveHidden => None
  end.

(** An item of the folder picker: a child, or the way back. *)
Inductive Picked := PickedItem (item : DriveItem) | PickedParent.

Inductive FolderChoice :=
  | FolderButton (item : Picked)
  | FolderAccepted (selected : option Picked)
  | FolderHidden.

Definition pickFolder_result (choice : FolderChoice)
    : option (Picked * ItemAction) :=
  match choice with
  | FolderButton item => Some (item, open)
  | FolderAccepted (Some item) => Some (item, browse)
  | FolderAccepted None => None
  | FolderHidden => None
  end.

(** [vscode.commands.executeCommand(command, uri)]. *)
Record Command := { command : string; target : Uri }.

(** The path of the uri that is opened: [`/${context.map(c => c.name).join('/')}`]. *)
Definition contextPath (context : list DriveItem) : string :=
  "/" +:+ Js.join "/" (map name context).

(** The [while (true)] loop of [openOneDrive] over what the user does with
    one folder picker after the other. With each picker goes the listing it
    asks for: the children of the last item of the context, or those of the
    root. [Pending] when the user has not answered the last picker. *)
Fixpoint browseFolders (driveId : string) (context : list DriveItem)
    (choices : list FolderChoice)
    : list (option string) * outcome (option Command) :=
  let listing := id <$> last context in
  match choices with
  | [] => ([listing], Pending)
  | choice :: choices' =>
      match pickFolder_result choice with
      | None => ([listing], Resolved None)
      | Some (PickedParent, _) =>
          let '(listings, result) :=
            browseFolders driveId (removelast context) choices' in
          (listing :: listings, result)
      | Some (PickedItem item, action) =>
          let context' := context ++ [item] in
          match action with
          | open =>
              ([listing],
               Resolved
                 (Some {| command := if Js.truthy_obj (folder item)
                                     then "vscode.openFolder" else "vscode.open";
                          target := {| uri_scheme := FileSystemProvider.scheme;
                                       uri_authority := driveId;
                                       uri_path := contextPath context' |} |}))
          | browse =>
              let '(listings, result) :=
                browseFolders driveId context' choices' in
              (listing :: listings, result)
          end
      end
  end.

(** [openOneDrive]: the state of the sign-in after it, the listings the
    folder pickers asked for, and the command that was run, if any. *)
Definition openOneDrive (authentication : nat → outcome string) (st : SignIn)
    (driveChoice : DriveChoice) (choices : list FolderChoice)
    : SignIn * list (option string) * outcome (option Command) :=
  let '(st', client) := request authentication st in
  match client with
  | Rejected e => (st', [], Rejected e)
  | Pending => (st', [], Pending)
  | Resolved None => (st', [], Resolved None)
  | Resolved (Some _) =>
      match pickDriveId_result driveChoice with
      | None => (st', [], Resolved None)
      | Some (driveId, open) =>
          (st', [],
           Resolved (Some {| command := "vscode.openFolder";
                             target := {| uri_scheme := FileSystemProvider.scheme;
                                          uri_authority := driveId;
                                          uri_path := "" |} |}))
      | Some (driveId, browse) =>
          let '(listings, result) := browseFolders driveId [] choices in
          (st', listings, result)
      end
  end.

End OpenOneDrive.

(** ** Sample data: a drive with [Docs/a.txt] *)

Module Sample.

Definition underRoot (parent : string) : ParentReference :=
  {| pr_driveId := "d1"; pr_id := parent; pr_path := Some "/drive/root:" |}.

Definition byIdOnly (parent : string) : ParentReference :=
  {| pr_driveId := "d1"; pr_id := parent; pr_path := None |}.

Definition driveRoot : DriveItem :=
  {| createdDateTime := Some 100; id := "R"; name := "root";
     parentReference := None; root := Some tt; folder := Some tt;
     deleted := None |}.

Definition docs : DriveItem :=
  {| createdDateTime := Some 200; id := "F1"; name := "Docs";
     parentReference := Some (underRoot "R"); root := None;
     folder := Some tt; deleted := None |}.

Definition aTxt : DriveItem :=
  {| createdDateTime := Some 300; id := "I1"; name := "a.txt";
     parentReference := Some (byIdOnly "F1"); root := None;
     folder := None; deleted := None |}.

(** The tombstone the delta feed sends once [a.txt] is deleted. *)
Definition aTxtGone : DriveItem :=
  {| createdDateTime := Some 300; id := "I1"; name := "a.txt";
     parentReference := Some (byIdOnly "F1"); root := None;
     folder := None; deleted := Some "deleted" |}.

(** An item whose parent is not part of the snapshot. *)
Definition lost : DriveItem :=
  {| createdDateTime := Some 400; id := "I9"; name := "lost.txt";
     parentReference := Some (byIdOnly "F7"); root := None;
     folder := None; deleted := None |}.

(** Two items that name each other as parent. *)
Definition ping : DriveItem :=
  {| createdDateTime := Some 1; id := "P"; name := "ping";
     parentReference := Some (byIdOnly "Q"); root := None;
     folder := Some tt; deleted := None |}.

Definition pong : DriveItem :=
  {| createdDateTime := Some 1; id := "Q"; name := "pong";
     parentReference := Some (byIdOnly "P"); root := None;
     folder := Some tt; deleted := None |}.

Definition snapshot : Js.Map DriveItem :=
  [("R", driveRoot); ("F1", docs); ("I1", aTxt); ("I9", lost)].

Definition client : OneDriveClient := {| accessToken := "token" |}.

Definition answer (date : Z) (body : JsonBody) : Response :=
  {| status := 200; header_Date := Some (Some date); json := Some body;
     text := None |}.

Definition failure (code : Z) : Response :=
  {| status := code; header_Date := None; json := None;
     text := Some "error" |}.

(** A service that answers the listed urls and 404 on the rest. *)
Definition serve (pages : list (string * Response)) : Remote :=
  λ request,
    match Js.Map_get pages (url request) with
    | Some r => Answer r
    | None => Answer (failure 404)
    end.

Definition deltaUrl : string :=
  "https://graph.microsoft.com/v1.0/drives/d1/items/root/delta".

Definition cursor (n : string) : string := deltaUrl +:+ "?token=" +:+ n.

Definition quiet (r : Remote) (t : Z) : Round :=
  {| cancelWhileWaiting := false; remote := r; now := t;
     cancelWhileFetching := false; cancelWhileYielded := false |}.

(** The baseline: the whole drive, answered at instant 5000. *)
Definition baseline : Start :=
  {| startRemote :=
       serve [(deltaUrl,
               answer 5000 {| odata_deltaLink := Some (cursor "1");
                              odata_nextLink := None;
                              value := [driveRoot; docs; aTxt] |})];
     startNow := 5000;
     cancelWhileStarting := false |}.

Definition onedrive (drive p : string) : Uri :=
  {| uri_scheme := "onedrive"; uri_authority := drive; uri_path := p |}.

(** The snapshot the baseline leaves behind: the round before the first
    poll. *)
Definition baselineSnapshot : DeltaResultInteractor :=
  newDeltaResultInteractor
    {| odata_deltaLink := Some (cursor "1"); odata_nextLink := None;
       value := [driveRoot; docs; aTxt] |}
    (Some (Some 5000)) 5000.

(** A file made at instant 1000, long before the baseline, and touched
    after it. *)
Definition oldTxt : DriveItem :=
  {| createdDateTime := Some 1000; id := "I2"; name := "old.txt";
     parentReference :=
       Some {| pr_driveId := "d1"; pr_id := "F1";
               pr_path := Some "/drive/root:/Docs" |};
     root := None; folder := None; deleted := None |}.

(** A poll at instant 6000: asked at the cursor [from], the service
    answers with [items] and the cursor [to]. *)
Definition poll (from to : string) (items : list DriveItem) : Round :=
  quiet (serve [(cursor from,
                 answer 6000 {| odata_deltaLink := Some (cursor to);
                                odata_nextLink := None;
                                value := items |})])
        6000.

(** A baseline with the cursor of [baselineSnapshot] and no items. *)
Definition bareSnapshot : DeltaResultInteractor :=
  {| results := []; lastUpdated := None; next := Some (cursor "1") |}.

(** The snapshot of the poll that brings the tombstone of [a.txt]. *)
Definition goneSnapshot : DeltaResultInteractor :=
  newDeltaResultInteractor
    {| odata_deltaLink := Some (cursor "2"); odata_nextLink := None;
       value := [aTxtGone] |}
    (Some (Some 6000)) 6000.

(** The snapshot of the poll at the cursor "2" that brings the tombstone. *)
Definition goneSnapshotAt3 : DeltaResultInteractor :=
  newDeltaResultInteractor
    {| odata_deltaLink := Some (cursor "3"); odata_nextLink := None;
       value := [aTxtGone] |}
    (Some (Some 6000)) 6000.

(** A folder listing the service hands out in two pages. *)
Definition childrenUrl : string :=
  "https://graph.microsoft.com/v1.0/drives/d1/items/R/children".

Definition firstPage : JsonBody :=
  {| odata_deltaLink := None;
     odata_nextLink := Some (childrenUrl +:+ "?skip=1");
     value := [docs] |}.

Definition secondPage : JsonBody :=
  {| odata_deltaLink := None; odata_nextLink := None; value := [oldTxt] |}.

Definition listing : Remote :=
  serve [(childrenUrl, answer 7000 firstPage);
         (childrenUrl +:+ "?skip=1", answer 7000 secondPage)].

(** The same two pages as a delta feed. *)
Definition feed : Remote :=
  serve [(deltaUrl,
          answer 7000 {| odata_deltaLink := None;
                         odata_nextLink := Some (cursor "page2");
                         value := [driveRoot; docs] |});
         (cursor "page2",
          answer 7001 {| odata_deltaLink := Some (cursor "9");
                         odata_nextLink := None;
                         value := [aTxt] |})].

(** A service that fails every request with 500, and one where nothing
    exists. *)
Definition broken : Remote := λ _, Answer (failure 500).

Definition empty : Remote := λ _, Answer (failure 404).

Definition signedIn : ClientProvider := {| session := Resolved "token" |}.

(** [encodeURI] leaves letters, digits, [.] and [/] as they are; the sample
    paths hold nothing else. *)
Definition encodeURI (s : string) : string := s.

(** The service behind a gate that lets through https requests only. *)
Definition httpsOnly (r : Remote) : Remote :=
  λ request,
    if Js.startsWith (url request) "https:" then r request
    else NetworkFailure "blocked".

(** The service of the sample drive for the calls of the provider: the
    metadata of [Docs] and of [Docs/a.txt], the listing of [Docs], and a
    PATCH of [a.txt] that is accepted when it asks for the name [b.txt]
    under [Docs]; the body of an answer names the item it describes. *)
Definition named (what : string) : Response :=
  {| status := 200; header_Date := None; json := None; text := Some what |}.

Definition docsListing : Response :=
  {| status := 200; header_Date := None;
     json := Some {| odata_deltaLink := None; odata_nextLink := None;
                     value := [aTxt; oldTxt] |};
     text := None |}.

Definition acceptable (m : Method) (body : option Body) : bool :=
  match m, body with
  | GET, None => true
  | PATCH, Some (TargetBody "b.txt" "F1") => true
  | _, _ => false
  end.

Definition drive : Service :=
  λ request body,
    if negb (acceptable (method request) body) then Answer (failure 400)
    else
    Answer
      (default (failure 404)
         (Js.Map_get
            [("https://graph.microsoft.com/v1.0/drives/d1/root:/Docs",
              named "Docs");
             ("https://graph.microsoft.com/v1.0/drives/d1/root:/Docs/a.txt",
              named "a.txt");
             ("https://graph.microsoft.com/v1.0/drives/d1/items/F1/children",
              docsListing);
             ("https://graph.microsoft.com/v1.0/drives/d1/items/I1",
              named "a.txt")]
            (url request))).

Definition builtins : Builtins :=
  {| uriEncode := encodeURI;
     jsonItem := λ response,
       match text response with
       | Some "Docs" =>
           Some {| md_item := docs; md_lastModifiedDateTime := Some 250;
                   md_size := 0 |}
       | Some "a.txt" =>
           Some {| md_item := aTxt; md_lastModifiedDateTime := Some 350;
                   md_size := 12 |}
       | _ => None
       end;
     arrayBuffer := λ _, [] |}.

(** A sign-in that fails the first time it is asked and would succeed the
    second time. *)
Definition flaky (n : nat) : outcome string :=
  match n with
  | O => Rejected (Error "cancelled")
  | S _ => Resolved "token"
  end.

Definition steady (n : nat) : outcome string := Resolved "token".

Definition twoDrives : list FileSystemProvider.Op :=
  [FileSystemProvider.Watch (onedrive "driveA" "/");
   FileSystemProvider.Watch (onedrive "driveB" "/")].

(** Two observers come and go, the first disposes twice. *)
Definition fanIn : list FileSystemProvider.Op :=
  [FileSystemProvider.Watch (onedrive "driveA" "/");
   FileSystemProvider.Watch (onedrive "driveA" "/src");
   FileSystemProvider.Dispose 0;
   FileSystemProvider.Dispose 0;
   FileSystemProvider.Dispose 1;
   FileSystemProvider.Watch (onedrive "driveA" "/")].

Definition threeObservers : list FileSystemProvider.Op :=
  [FileSystemProvider.Watch (onedrive "driveA" "/");
   FileSystemProvider.Watch (onedrive "driveA" "/src");
   FileSystemProvider.Watch (onedrive "driveA" "/doc")].

(** The children of the root, handed out in two pages. *)
Definition rootChildrenUrl : string :=
  "https://graph.microsoft.com/v1.0/drives/d1/root/children".

Definition rootFirstPage : JsonBody :=
  {| odata_deltaLink := None;
     odata_nextLink := Some (rootChildrenUrl +:+ "?skip=1");
     value := [docs] |}.

Definition rootListing : Remote :=
  serve [(rootChildrenUrl, answer 7000 rootFirstPage);
         (rootChildrenUrl +:+ "?skip=1", answer 7000 secondPage)].

(** The sample drive with every request that is not a GET refused. *)
Definition readOnly : Service :=
  λ request body,
    match method request with
    | GET => drive request body
    | _ => Answer (failure 500)
    end.

(** A drive without a name whose owner is an application. *)
Definition appDrive : MyDrives.Drive :=
  {| MyDrives.driveId := "d2";
     MyDrives.driveName := Some "";
     MyDrives.owner :=
       {| MyDrives.user := None;
          MyDrives.application :=
            Some {| MyDrives.displayName := "Contoso";
                    MyDrives.identityId := "app1" |};
          MyDrives.device :=
            Some {| MyDrives.displayName := "Laptop";
                    MyDrives.identityId := "dev1" |} |} |}.

Definition cancelledInFlight (r : Round) : Round :=
  {| cancelWhileWaiting := false; remote := remote r; now := now r;
     cancelWhileFetching := true; cancelWhileYielded := false |}.

End Sample.

(** ** Vocabulary of the statements *)

(** The pages the service hands out from [route] on: every page but the last
    carries the link to the one that follows. *)
Inductive paged (this : OneDriveClient) (remote : Remote)
    : string → list JsonBody → Prop :=
  | paged_last route page :
      fetchJson this remote GET route = Resolved page →
      Js.truthy_str (odata_nextLink page) = false →
      paged this remote route [page]
  | paged_more route page link pages :
      fetchJson this remote GET route = Resolved page →
      odata_nextLink page = Some link →
      link ≠ "" →
      paged this remote link pages →
      paged this remote route (page :: pages).

(** What is left to fetch after a page with the next link [link]. *)
Definition continues (this : OneDriveClient) (remote : Remote)
    (link : option string) (rest : list JsonBody) : Prop :=
  match rest with
  | [] => Js.truthy_str link = false
  | _ :: _ => ∃ l, link = Some l ∧ l ≠ "" ∧ paged this remote l rest
  end.

(** All pages as one response: the items of every page in order, and the
    links of the last page. *)
Definition materialized (pages : list JsonBody) : option JsonBody :=
  final ← last pages;
  Some {| odata_deltaLink := odata_deltaLink final;
          odata_nextLink := odata_nextLink final;
          value := concat (map value pages) |}.

(** What holds of the provider after any calls of [watch] and [dispose]: the
    count is the number of handles not yet disposed and is positive while a
    watcher exists; the loop of the watcher is the one loop going; token
    sources are started in the order of their creation; none is cancelled
    twice, and none before it was started. *)
Definition consistent (p : Provider) : Prop :=
  FileSystemProvider.refCount p = Z.of_nat (length (FileSystemProvider.live p))
  ∧ (∀ w, watcher p = Some w → 0 < count w)
  ∧ FileSystemProvider.active (effects p)
    = match watcher p with Some w => [cts w] | None => [] end
  ∧ FileSystemProvider.started (effects p) = seq 0 (sources p)
  ∧ NoDup (FileSystemProvider.cancelled (effects p))
  ∧ (∀ s, s ∈ FileSystemProvider.cancelled (effects p) →
          s ∈ FileSystemProvider.started (effects p)).

(** The call [getPathForItem] makes on itself: [item] is not the root, its
    parent reference carries no path, and the snapshot holds [parentItem]
    under the id the reference names. *)
Definition recursesTo (snapshot : Js.Map DriveItem)
    (item parentItem : DriveItem) : Prop :=
  root item = None
  ∧ ∃ ref, parentReference item = Some ref
           ∧ Js.truthy_str (pr_path ref) = false
           ∧ Js.Map_get snapshot (pr_id ref) = Some parentItem.

(** * Path resolution *)

Section PathResolution.

Context (snapshot : Js.Map DriveItem).

Lemma Map_get_keys {V : Type} (m : Js.Map V) k v :
  Js.Map_get m k = Some v → k ∈ Js.Map_keys m.
Proof.
  induction m as [|[k' v'] m IH]; simpl; [done|].
  destruct (String.eqb_spec k' k) as [->|_].
  - intros _. apply list_elem_of_here.
  - intros H. apply list_elem_of_further, IH, H.
Qed.

Lemma parentIn_get i k p :
  parentIn snapshot i = Some (k, p) → Js.Map_get snapshot k = Some p.
Proof.
  unfold parentIn. destruct (parentReference i) as [ref|]; simpl; [|done].
  destruct (Js.Map_get snapshot (pr_id ref)) eqn:E; simpl; [|done].
  intros [= <- <-]. exact E.
Qed.

Lemma climb_split i a b j :
  climb snapshot i (a ++ b) j →
  ∃ x, climb snapshot i a x ∧ climb snapshot x b j.
Proof.
  revert i. induction a as [|k a IH]; intros i H; simpl in H.
  - exists i. split; [constructor | exact H].
  - inversion H as [|? ? p ? ? Hp Hrest]; subst.
    destruct (IH _ Hrest) as (x & Ha & Hb).
    exists x. split; [econstructor; eassumption | exact Hb].
Qed.

Lemma climb_arrives i a k j :
  climb snapshot i (a ++ [k]) j → Js.Map_get snapshot k = Some j.
Proof.
  intros H. apply climb_split in H as (x & _ & H).
  inversion H as [|? ? p ? ? Hp Hrest]; subst.
  inversion Hrest; subst. eapply parentIn_get, Hp.
Qed.

Lemma climb_keys i ks j :
  climb snapshot i ks j → ∀ k, k ∈ ks → k ∈ Js.Map_keys snapshot.
Proof.
  induction 1 as [|i k p ks j Hp _ IH]; intros k' Hk'.
  - inversion Hk'.
  - apply elem_of_cons in Hk' as [->|Hk'].
    + eapply Map_get_keys, parentIn_get, Hp.
    + apply IH, Hk'.
Qed.

(** In a snapshot without cycles a climb never takes the same id twice. *)
Lemma climb_NoDup i ks j :
  acyclic snapshot → climb snapshot i ks j → NoDup ks.
Proof.
  intros Hacyclic. induction 1 as [|i k p ks j Hp Hrest IH].
  - constructor.
  - constructor; [|exact IH].
    intros Hin. apply list_elem_of_split in Hin as (a & b & ->).
    replace (a ++ k :: b) with ((a ++ [k]) ++ b) in Hrest
      by (rewrite <- app_assoc; reflexivity).
    apply climb_split in Hrest as (x & Hloop & _).
    pose proof (climb_arrives _ _ _ _ Hloop) as Hx.
    rewrite (parentIn_get _ _ _ Hp) in Hx. injection Hx as <-.
    eapply Hacyclic; [eapply parentIn_get, Hp | | exact Hloop].
    destruct a; discriminate.
Qed.

Lemma climb_bounded i ks j :
  acyclic snapshot → climb snapshot i ks j →
  (length ks ≤ length snapshot)%nat.
Proof.
  intros Hacyclic Hclimb.
  replace (length snapshot) with (length (Js.Map_keys snapshot))
    by apply length_map.
  apply submseteq_length, NoDup_submseteq.
  - eapply climb_NoDup; eassumption.
  - eapply climb_keys, Hclimb.
Qed.

(** A resolution that runs out of fuel has climbed once for each unit. *)
Lemma getPathForItem_None fuel item :
  getPathForItem fuel snapshot item = None →
  ∃ ks j, length ks = fuel ∧ climb snapshot item ks j.
Proof.
  revert item. induction fuel as [|fuel IH]; intros item H.
  - exists [], item. split; [reflexivity | constructor].
  - simpl in H.
    destruct (Js.truthy_obj (root item)); [done|].
    destruct (parentReference item) as [ref|] eqn:Eref; [|done].
    destruct (Js.strict_eq (pr_path ref) driveRootPrefix); [done|].
    destruct (Js.truthy_str (pr_path ref)); [done|].
    destruct (Js.Map_get snapshot (pr_id ref)) as [p|] eqn:Eget; [|done].
    destruct (getPathForItem fuel snapshot p) eqn:Ep; [done|].
    destruct (IH _ Ep) as (ks & j & Hlen & Hclimb).
    exists (pr_id ref :: ks), j. split; [simpl; congruence|].
    econstructor; [|exact Hclimb].
    unfold parentIn. rewrite Eref. simpl. rewrite Eget. reflexivity.
Qed.

(** More fuel does not change an answer. *)
Lemma getPathForItem_more fuel fuel' item p :
  getPathForItem fuel snapshot item = Some p → (fuel ≤ fuel')%nat →
  getPathForItem fuel' snapshot item = Some p.
Proof.
  revert fuel' item p.
  induction fuel as [|fuel IH]; intros fuel' item p H Hle; [done|].
  destruct fuel' as [|fuel']; [lia|]. simpl in *.
  destruct (Js.truthy_obj (root item)); [done|].
  destruct (parentReference item) as [ref|]; [|done].
  destruct (Js.strict_eq (pr_path ref) driveRootPrefix); [done|].
  destruct (Js.truthy_str (pr_path ref)); [done|].
  destruct (Js.Map_get snapshot (pr_id ref)) as [q|]; [|done].
  destruct (getPathForItem fuel snapshot q) as [pq|] eqn:Eq; [|done].
  rewrite (IH fuel' q pq Eq) by lia. exact H.
Qed.

Lemma getPathForItem_total fuel item :
  acyclic snapshot → (length snapshot < fuel)%nat →
  is_Some (getPathForItem fuel snapshot item).
Proof.
  intros Hacyclic Hfuel.
  destruct (getPathForItem fuel snapshot item) as [p|] eqn:E; [by eexists|].
  apply getPathForItem_None in E as (ks & j & Hlen & Hclimb).
  pose proof (climb_bounded _ _ _ Hacyclic Hclimb). lia.
Qed.

End PathResolution.

(** Inverts one step of a climb in a concrete snapshot. *)
Ltac climb_step H :=
  let Hp := fresh "Hp" in
  let Hrest := fresh "Hrest" in
  inversion H as [|? ? ? ? ? Hp Hrest]; subst; clear H;
  try discriminate;
  try (vm_compute in Hp; first [discriminate Hp | injection Hp as <- <-]).

Ltac climb_out :=
  repeat match goal with
         | H : climb _ _ _ _ |- _ => climb_step H
         end;
  try done.

Lemma Sample_snapshot_acyclic : acyclic Sample.snapshot.
Proof.
  intros k i ks Hget Hne Hclimb. unfold Sample.snapshot in Hget.
  cbn [Js.Map_get] in Hget.
  repeat match type of Hget with
         | context [String.eqb ?a k] => destruct (String.eqb a k)
         end; try discriminate Hget; injection Hget as <-; climb_out.
Qed.

(** Two items that are each other's parent: the resolution does not return,
    whatever the fuel. *)
Lemma getPathForItem_cycle fuel :
  getPathForItem fuel [("P", Sample.ping); ("Q", Sample.pong)] Sample.ping = None
  ∧ getPathForItem fuel [("P", Sample.ping); ("Q", Sample.pong)] Sample.pong = None.
Proof.
  induction fuel as [|fuel [IH1 IH2]]; [done|].
  split; simpl; [rewrite IH2 | rewrite IH1]; reflexivity.
Qed.

(** C5. Path reconstruction. In a snapshot where [A] is the drive root, [B]
    lies directly under it (the parent reference of [B] has the id of [A] and
    the path of the root) and the parent reference of [C] gives only the id
    of [B], the path of [C] is
    [B.name + "/" + C.name]. And an item that is not the root, whose parent
    reference carries no path and names an id the snapshot does not hold,
    resolves to its own name. *)
Theorem getPathForItem_reconstructs :
  (∀ (snapshot : Js.Map DriveItem) (A B C : DriveItem)
     (refB refC : ParentReference) (fuel : nat),
     root A = Some tt → Js.Map_get snapshot (id A) = Some A →
     root B = None → parentReference B = Some refB →
     pr_id refB = id A → pr_path refB = Some driveRootPrefix →
     root C = None → parentReference C = Some refC →
     pr_path refC = None → pr_id refC = id B →
     Js.Map_get snapshot (id B) = Some B →
     (2 ≤ fuel)%nat →
     getPathForItem fuel snapshot C = Some (name B +:+ "/" +:+ name C))
  ∧
  (∀ (snapshot : Js.Map DriveItem) (item : DriveItem)
     (ref : ParentReference) (fuel : nat),
     root item = None → parentReference item = Some ref →
     Js.truthy_str (pr_path ref) = false →
     Js.Map_get snapshot (pr_id ref) = None →
     (1 ≤ fuel)%nat →
     getPathForItem fuel snapshot item = Some (name item)).
Proof.
  split.
  - intros snapshot A B C refB refC fuel _ _ HrB HpB _ HpathB HrC HpC HpathC Hid
      Hget Hfuel.
    destruct fuel as [|[|fuel]]; [lia | lia |].
    cbn [getPathForItem].
    rewrite HrC, HpC, HpathC, Hid, Hget. cbn [Js.truthy_obj Js.strict_eq Js.truthy_str].
    rewrite HrB, HpB, HpathB. cbn [Js.truthy_obj Js.strict_eq].
    rewrite String.eqb_refl. reflexivity.
  - intros snapshot item ref fuel Hr Hp Hpath Hget Hfuel.
    destruct fuel as [|fuel]; [lia|].
    cbn [getPathForItem]. rewrite Hr, Hp, Hpath, Hget. cbn [Js.truthy_obj].
    destruct (pr_path ref) as [s|]; [|reflexivity].
    cbn [Js.strict_eq]. destruct (String.eqb_spec s driveRootPrefix) as [->|_];
      [discriminate Hpath | reflexivity].
Qed.

Lemma getPathForItem_reconstructs_witness :
  getPathForItem 2 Sample.snapshot Sample.aTxt = Some "Docs/a.txt"
  ∧ getPathForItem 1 Sample.snapshot Sample.lost = Some "lost.txt".
Proof.
  split.
  - apply (proj1 getPathForItem_reconstructs Sample.snapshot
             Sample.driveRoot Sample.docs Sample.aTxt
             (Sample.underRoot "R") (Sample.byIdOnly "F1") 2%nat);
      first [reflexivity | lia].
  - apply (proj2 getPathForItem_reconstructs Sample.snapshot Sample.lost
             (Sample.byIdOnly "F7") 1%nat);
      first [reflexivity | lia].
Defined.

(** C9. In a snapshot where no item is its own ancestor, [getPathForItem]
    returns for every item: any fuel beyond the number of entries of the
    snapshot sees the call through, and the path returned is the same for
    all of them. *)
Theorem getPathForItem_terminates (snapshot : Js.Map DriveItem)
    (item : DriveItem) :
  acyclic snapshot →
  ∃ p, ∀ fuel, (length snapshot < fuel)%nat →
       getPathForItem fuel snapshot item = Some p.
Proof.
  intros Hacyclic.
  destruct (getPathForItem_total snapshot (S (length snapshot)) item
              Hacyclic) as [p Hp]; [lia|].
  exists p. intros fuel Hfuel.
  eapply getPathForItem_more; [exact Hp | lia].
Qed.

Lemma getPathForItem_terminates_witness :
  ∃ p, ∀ fuel, (4 < fuel)%nat →
       getPathForItem fuel Sample.snapshot Sample.aTxt = Some p.
Proof.
  apply (getPathForItem_terminates Sample.snapshot Sample.aTxt).
  exact Sample_snapshot_acyclic.
Defined.

(** * The paged delta feed *)

Section Paging.

Context (this : OneDriveClient) (remote : Remote).

Lemma fetchJson_Resolved m route page :
  fetchJson this remote m route = Resolved page →
  ∃ res, client_fetch this remote m route = Resolved res
         ∧ Response_json res = Resolved page.
Proof.
  unfold fetchJson. destruct (client_fetch this remote m route) as [res| |];
    simpl; [|done..].
  intros H. exists res. split; [reflexivity | exact H].
Qed.

Lemma followPages_done fuel response :
  Js.truthy_str (odata_nextLink response) = false →
  followPages fuel this remote response = Resolved response.
Proof. intros H. destruct fuel; simpl; rewrite H; reflexivity. Qed.

Lemma paged_inv route page rest :
  paged this remote route (page :: rest) →
  fetchJson this remote GET route = Resolved page
  ∧ continues this remote (odata_nextLink page) rest.
Proof.
  inversion 1 as [? ? Hfetch Hlast | ? ? link ? Hfetch Hlink Hne Hrest]; subst.
  - split; [exact Hfetch | exact Hlast].
  - split; [exact Hfetch|]. inversion Hrest; subst; exists link; auto.
Qed.

(** The loop of [loadDelta] appends the items of every further page and
    keeps the links of the last one. *)
Lemma followPages_paged rest : ∀ fuel response,
  (length rest ≤ fuel)%nat →
  continues this remote (odata_nextLink response) rest →
  followPages fuel this remote response =
    Resolved {| odata_deltaLink := odata_deltaLink (default response (last rest));
                odata_nextLink := odata_nextLink (default response (last rest));
                value := value response ++ concat (map value rest) |}.
Proof.
  induction rest as [|page rest IH]; intros fuel response Hfuel Hcont.
  - rewrite followPages_done by exact Hcont.
    destruct response; simpl. rewrite app_nil_r. reflexivity.
  - destruct Hcont as (l & Hl & Hne & Hpaged).
    apply paged_inv in Hpaged as [Hfetch Hcont].
    destruct fuel as [|fuel]; [simpl in Hfuel; lia|].
    cbn [followPages]. rewrite Hl. cbn [Js.truthy_str default].
    destruct (String.eqb_spec l "") as [->|_]; [done|]. cbn [negb].
    unfold Datatypes.id. rewrite Hfetch. cbn [mbind outcome_bind].
    rewrite IH; [|simpl in Hfuel; lia | exact Hcont].
    cbn [odata_nextLink odata_deltaLink value map concat].
    rewrite <- app_assoc. f_equal.
    rewrite last_cons. destruct (last rest); reflexivity.
Qed.

End Paging.

(** * The change events of a round *)

Lemma changeOf_deleted value p :
  deleted value ≠ None → changeOf value p = {| type := Deleted; path := p |}.
Proof. unfold changeOf. destruct (deleted value); done. Qed.

(** Whatever its creation date, an item without the deleted flag is reported
    as created: the test of [watch] is on a [Date] object, and the [Changed]
    branch is never taken. *)
Lemma changeOf_kept value p :
  deleted value = None → changeOf value p = {| type := Created; path := p |}.
Proof. unfold changeOf. intros ->. reflexivity. Qed.

(** With enough fuel a round over a snapshot without cycles has its batch:
    one event for each item, in the order of the snapshot. *)
Lemma changes_total fuel next :
  acyclic (results next) → (length (results next) < fuel)%nat →
  ∃ batch,
    changes fuel next = Some batch
    ∧ Forall2 (λ value change,
                 ∃ p, getPathForItem fuel (results next) value = Some p
                      ∧ change = changeOf value p)
              (Js.Map_values (results next)) batch.
Proof.
  intros Hacyclic Hfuel. unfold changes.
  match goal with |- context [mapM ?f ?l] =>
    destruct (mapM_is_Some_2 f l) as [batch Hbatch]
  end.
  - apply Forall_forall. intros value _. simpl.
    destruct (getPathForItem_total (results next) fuel value Hacyclic Hfuel)
      as [p ->].
    by eexists.
  - exists batch. split; [exact Hbatch|].
    apply mapM_Some_1 in Hbatch.
    eapply Forall2_impl; [exact Hbatch|].
    intros value change H. simpl in H.
    destruct (getPathForItem fuel (results next) value) as [p|]; [|done].
    injection H as <-. exists p. split; reflexivity.
Qed.

(** Settles [acyclic] for a snapshot written out as a list. *)
Ltac solve_acyclic :=
  let k := fresh "k" in
  let Hget := fresh "Hget" in
  intros k ? ? Hget ? ?;
  cbn [Js.Map_get] in Hget;
  repeat match type of Hget with
         | context [String.eqb ?a k] => destruct (String.eqb a k)
         end;
  try discriminate Hget; injection Hget as <-; climb_out.

Lemma Sample_goneSnapshot_acyclic : acyclic (results Sample.goneSnapshot).
Proof.
  change (results Sample.goneSnapshot) with [("I1", Sample.aTxtGone)].
  solve_acyclic.
Qed.

Lemma Sample_feed_paged :
  paged Sample.client Sample.feed "drives/d1/items/root/delta"
    [{| odata_deltaLink := None;
        odata_nextLink := Some (Sample.cursor "page2");
        value := [Sample.driveRoot; Sample.docs] |};
     {| odata_deltaLink := Some (Sample.cursor "9");
        odata_nextLink := None;
        value := [Sample.aTxt] |}].
Proof.
  eapply paged_more; [reflexivity | reflexivity | by vm_compute |].
  apply paged_last; reflexivity.
Qed.

Lemma Sample_listing_paged :
  paged Sample.client Sample.listing "drives/d1/items/R/children"
    [Sample.firstPage; Sample.secondPage].
Proof.
  eapply paged_more; [reflexivity | reflexivity | by vm_compute |].
  apply paged_last; reflexivity.
Qed.

Lemma Sample_rootListing_paged :
  paged Sample.client Sample.rootListing "drives/d1/root/children"
    [Sample.rootFirstPage; Sample.secondPage].
Proof.
  eapply paged_more; [reflexivity | reflexivity | by vm_compute |].
  apply paged_last; reflexivity.
Qed.

(** C6 (amended). The delta feed is followed through all its pages: when the
    service hands out [pages] from [route] on, [loadDelta] resolves to the
    interactor of one response that holds the items of all pages in the order
    served and the links of the last page, so its [next] is the continuation
    token of the last page. A listing, of the children of an item
    ([getNestedChildren]) or of the root ([getRootChildren]), is one request:
    it resolves to the first page as it was served, next link and all. *)
Theorem pages_followed_by_loadDelta :
  (∀ (this : OneDriveClient) (remote : Remote) (route : string)
     (pages : list JsonBody) (fuel : nat) (now : Z),
     paged this remote route pages →
     (length pages ≤ S fuel)%nat →
     ∃ response first,
       materialized pages = Some response
       ∧ client_fetch this remote GET route = Resolved first
       ∧ loadDelta fuel this remote now (Some route)
         = Resolved (newDeltaResultInteractor response (header_Date first) now))
  ∧
  (∀ (this : OneDriveClient) (remote : Remote) (driveId itemId : string)
     (page : JsonBody) (rest : list JsonBody),
     paged this remote
       ("drives/" +:+ driveId +:+ "/items/" +:+ itemId +:+ "/children")
       (page :: rest) →
     getNestedChildren this remote driveId itemId = Resolved page)
  ∧
  (∀ (this : OneDriveClient) (remote : Remote) (driveId : string)
     (page : JsonBody) (rest : list JsonBody),
     paged this remote ("drives/" +:+ driveId +:+ "/root/children")
       (page :: rest) →
     getRootChildren this remote driveId = Resolved page).
Proof.
  split; [|split].
  - intros this remote route pages fuel now Hpaged Hfuel.
    destruct pages as [|page rest]; [inversion Hpaged|].
    apply paged_inv in Hpaged as [Hfetch Hcont].
    apply fetchJson_Resolved in Hfetch as (first & Hfirst & Hjson).
    exists {| odata_deltaLink := odata_deltaLink (default page (last rest));
              odata_nextLink := odata_nextLink (default page (last rest));
              value := value page ++ concat (map value rest) |}, first.
    split; [|split; [exact Hfirst|]].
    + unfold materialized. rewrite last_cons.
      destruct (last rest); reflexivity.
    + unfold loadDelta, loadDeltaResponse. rewrite Hfirst.
      cbn [mbind outcome_bind]. rewrite Hjson. cbn [mbind outcome_bind].
      rewrite (followPages_paged this remote rest fuel page);
        [reflexivity | simpl in Hfuel; lia | exact Hcont].
  - intros this remote driveId itemId page rest Hpaged.
    apply paged_inv in Hpaged as [Hfetch _]. exact Hfetch.
  - intros this remote driveId page rest Hpaged.
    apply paged_inv in Hpaged as [Hfetch _]. exact Hfetch.
Qed.

Lemma pages_followed_by_loadDelta_witness :
  loadDelta 1 Sample.client Sample.feed 7000 (Some "drives/d1/items/root/delta")
  = Resolved
      (newDeltaResultInteractor
         {| odata_deltaLink := Some (Sample.cursor "9");
            odata_nextLink := None;
            value := [Sample.driveRoot; Sample.docs; Sample.aTxt] |}
         (Some (Some 7000)) 7000)
  ∧ getNestedChildren Sample.client Sample.listing "d1" "R"
    = Resolved Sample.firstPage
  ∧ getRootChildren Sample.client Sample.rootListing "d1"
    = Resolved Sample.rootFirstPage.
Proof.
  destruct pages_followed_by_loadDelta as (Hdelta & Hnested & Hroot).
  split; [|split].
  - destruct (Hdelta Sample.client Sample.feed _ _ 1%nat 7000 Sample_feed_paged)
      as (response & first & Hresponse & Hfirst & Hload); [simpl; lia|].
    vm_compute in Hresponse. injection Hresponse as <-.
    vm_compute in Hfirst. injection Hfirst as <-.
    rewrite Hload. reflexivity.
  - apply (Hnested Sample.client Sample.listing "d1" "R" Sample.firstPage
             [Sample.secondPage]).
    exact Sample_listing_paged.
  - apply (Hroot Sample.client Sample.rootListing "d1" Sample.rootFirstPage
             [Sample.secondPage]).
    exact Sample_rootListing_paged.
Defined.

(** C6 as stated fails for a paged listing: the service hands out the
    children of the root in two pages, and [getNestedChildren] resolves to
    the first page only, with the next link left in it. *)
Lemma listing_not_followed_counterexample :
  paged Sample.client Sample.listing "drives/d1/items/R/children"
    [Sample.firstPage; Sample.secondPage]
  ∧ getNestedChildren Sample.client Sample.listing "d1" "R"
    = Resolved Sample.firstPage
  ∧ materialized [Sample.firstPage; Sample.secondPage] ≠ Some Sample.firstPage
  ∧ value Sample.firstPage = [Sample.docs]
  ∧ Js.truthy_str (odata_nextLink Sample.firstPage) = true.
Proof.
  split; [exact Sample_listing_paged|].
  split; [reflexivity|].
  split; [by vm_compute|].
  split; reflexivity.
Qed.

(** * The watch loop *)

Section WatchLoop.

Context (fuel : nat) (this : OneDriveClient).

(** A round that is not cancelled and whose poll resolves yields the batch
    of its own snapshot; the loop goes on from that snapshot. *)
Lemma watchLoop_round previous r rounds snapshot batch :
  cancelWhileWaiting r = false →
  cancelWhileFetching r = false →
  loadDelta fuel this (remote r) (now r) (next previous) = Resolved snapshot →
  changes fuel snapshot = Some batch →
  watchLoop fuel this previous false (r :: rounds)
  = (batch :: fst (watchLoop fuel this snapshot (cancelWhileYielded r) rounds),
     snd (watchLoop fuel this snapshot (cancelWhileYielded r) rounds)).
Proof.
  intros Hwait Hfetch Hload Hbatch. cbn [watchLoop].
  rewrite Hwait, Hload, Hfetch, Hbatch.
  destruct (watchLoop fuel this snapshot (cancelWhileYielded r) rounds).
  reflexivity.
Qed.

(** Of the snapshot it starts from, the loop reads the cursor only. *)
Lemma watchLoop_cursor rounds : ∀ results1 results2 ct,
  next results1 = next results2 →
  fst (watchLoop fuel this results1 ct rounds)
  = fst (watchLoop fuel this results2 ct rounds).
Proof.
  destruct rounds as [|r rounds]; intros results1 results2 ct Hnext;
    cbn [watchLoop]; destruct ct; try reflexivity.
  rewrite Hnext. reflexivity.
Qed.

Lemma watchLoop_cancelled results rounds :
  watchLoop fuel this results true rounds = ([], Stopped).
Proof. destruct rounds; reflexivity. Qed.

(** Every batch is the batch of a snapshot some round has polled. *)
Lemma watchLoop_batches rounds : ∀ results ct batch,
  batch ∈ fst (watchLoop fuel this results ct rounds) →
  ∃ r cursor snapshot,
    r ∈ rounds
    ∧ loadDelta fuel this (remote r) (now r) cursor = Resolved snapshot
    ∧ changes fuel snapshot = Some batch.
Proof.
  induction rounds as [|r rounds IH]; intros results ct batch;
    cbn [watchLoop]; destruct ct; cbn [fst]; try (by intros ?%elem_of_nil).
  destruct (cancelWhileWaiting r); [by intros ?%elem_of_nil|].
  destruct (loadDelta fuel this (remote r) (now r) (next results))
    as [snapshot| |] eqn:Hload; try (by intros ?%elem_of_nil).
  destruct (cancelWhileFetching r); [by intros ?%elem_of_nil|].
  destruct (changes fuel snapshot) as [b|] eqn:Hb;
    [|by intros ?%elem_of_nil].
  destruct (watchLoop fuel this snapshot (cancelWhileYielded r) rounds)
    as [batches ending] eqn:Hrest.
  cbn [fst]. intros [->|Hin]%elem_of_cons.
  - exists r, (next results), snapshot.
    split; [apply list_elem_of_here | split; assumption].
  - destruct (IH snapshot (cancelWhileYielded r) batch) as (r' & c & s & ? & ? & ?).
    { rewrite Hrest. exact Hin. }
    exists r', c, s. split; [by apply list_elem_of_further | split; assumption].
Qed.

Lemma watchLoop_length rounds : ∀ results ct,
  (length (fst (watchLoop fuel this results ct rounds)) ≤ length rounds)%nat.
Proof.
  induction rounds as [|r rounds IH]; intros results ct;
    cbn [watchLoop]; destruct ct; cbn [fst length]; try lia.
  destruct (cancelWhileWaiting r); [simpl; lia|].
  destruct (loadDelta fuel this (remote r) (now r) (next results))
    as [snapshot| |]; try (simpl; lia).
  destruct (cancelWhileFetching r); [simpl; lia|].
  destruct (changes fuel snapshot); [|simpl; lia].
  specialize (IH snapshot (cancelWhileYielded r)).
  destruct (watchLoop fuel this snapshot (cancelWhileYielded r) rounds).
  simpl in *. lia.
Qed.

(** A round in which the token is cancelled, in the sleep or while the
    poll is in flight, yields nothing, and neither does any round after
    it. *)
Lemma watchLoop_stops_before_yield r after before : ∀ results ct,
  cancelWhileWaiting r || cancelWhileFetching r = true →
  fst (watchLoop fuel this results ct (before ++ r :: after))
  = fst (watchLoop fuel this results ct before)
  ∧ ∀ left, snd (watchLoop fuel this results ct (before ++ r :: after))
            ≠ Suspended left.
Proof.
  induction before as [|r0 before IH]; intros results ct Hcancel.
  - cbn [app watchLoop]. destruct ct; [done|].
    destruct (cancelWhileWaiting r); [done|]. simpl in Hcancel.
    destruct (loadDelta fuel this (remote r) (now r) (next results));
      [|done..].
    rewrite Hcancel. done.
  - cbn [app watchLoop]. destruct ct; [done|].
    destruct (cancelWhileWaiting r0); [done|].
    destruct (loadDelta fuel this (remote r0) (now r0) (next results))
      as [snapshot| |]; [|done..].
    destruct (cancelWhileFetching r0); [done|].
    destruct (changes fuel snapshot) as [batch|]; [|done].
    destruct (IH snapshot (cancelWhileYielded r0) Hcancel) as [Hfst Hsnd].
    destruct (watchLoop fuel this snapshot (cancelWhileYielded r0)
                (before ++ r :: after)) as [batches ending].
    destruct (watchLoop fuel this snapshot (cancelWhileYielded r0) before)
      as [batches' ending'].
    simpl in *. split; [congruence | exact Hsnd].
Qed.

(** When the token is cancelled while the loop is suspended at [yield],
    the batch of that round is the last one. *)
Lemma watchLoop_stops_after_yield r after before : ∀ results ct,
  cancelWhileYielded r = true →
  fst (watchLoop fuel this results ct (before ++ r :: after))
  = fst (watchLoop fuel this results ct (before ++ [r]))
  ∧ ∀ left, snd (watchLoop fuel this results ct (before ++ r :: after))
            ≠ Suspended left.
Proof.
  induction before as [|r0 before IH]; intros results ct Hcancel.
  - cbn [app watchLoop]. destruct ct; [done|].
    destruct (cancelWhileWaiting r); [done|].
    destruct (loadDelta fuel this (remote r) (now r) (next results))
      as [snapshot| |]; [|done..].
    destruct (cancelWhileFetching r); [done|].
    destruct (changes fuel snapshot) as [batch|]; [|done].
    rewrite Hcancel, !watchLoop_cancelled. done.
  - cbn [app watchLoop]. destruct ct; [done|].
    destruct (cancelWhileWaiting r0); [done|].
    destruct (loadDelta fuel this (remote r0) (now r0) (next results))
      as [snapshot| |]; [|done..].
    destruct (cancelWhileFetching r0); [done|].
    destruct (changes fuel snapshot) as [batch|]; [|done].
    destruct (IH snapshot (cancelWhileYielded r0) Hcancel) as [Hfst Hsnd].
    destruct (watchLoop fuel this snapshot (cancelWhileYielded r0)
                (before ++ r :: after)) as [batches ending].
    destruct (watchLoop fuel this snapshot (cancelWhileYielded r0)
                (before ++ [r])) as [batches' ending'].
    simpl in *. split; [congruence | exact Hsnd].
Qed.

End WatchLoop.

Lemma Sample_baseline_loaded :
  loadDelta 5 Sample.client (startRemote Sample.baseline)
    (startNow Sample.baseline) (Some "drives/d1/items/root/delta")
  = Resolved Sample.baselineSnapshot.
Proof. reflexivity. Qed.

(** C1. The code at an item that was made at instant 1000, is not deleted,
    and comes in the poll after a baseline stamped 5000: [isNew] of the
    previous snapshot says it is not new, and [watch] reports it as
    [Created], where the specification has [Changed]. *)
Theorem watch_reports_old_item_Created :
  deleted Sample.oldTxt = None
  ∧ createdDateTime Sample.oldTxt = Some 1000
  ∧ lastUpdated Sample.baselineSnapshot = Some 5000
  ∧ isNew Sample.baselineSnapshot Sample.oldTxt = false
  ∧ fst (watch 5 Sample.client "d1" Sample.baseline
           [Sample.poll "1" "2" [Sample.oldTxt]])
    = [[{| type := Created; path := "Docs/old.txt" |}]].
Proof. repeat split; reflexivity. Qed.

(** C2 as stated fails: the poll brings the tombstone of [a.txt], whose
    parent reference has the id of [Docs] and no path. The snapshot before
    this round resolves the item to [Docs/a.txt]; the event carries the path
    the new snapshot gives, [a.txt]. *)
Lemma deleted_path_counterexample :
  getPathForItem 5 (results Sample.baselineSnapshot) Sample.aTxtGone
  = Some "Docs/a.txt"
  ∧ getPathForItem 5 (results Sample.baselineSnapshot) Sample.aTxt
    = Some "Docs/a.txt"
  ∧ fst (watch 5 Sample.client "d1" Sample.baseline
           [Sample.poll "1" "2" [Sample.aTxtGone]])
    = [[{| type := Deleted; path := "a.txt" |}]].
Proof. repeat split; reflexivity. Qed.

(** C2 (amended). In every poll round that is not cancelled, every item of
    the new snapshot whose deleted flag is set gets a [Deleted] event, at the
    place of the item in the batch, and its path is the one [getPathForItem]
    gives in the new snapshot itself; the snapshot of the round before is
    not consulted. *)
Theorem deleted_path_from_new_snapshot (fuel : nat) (this : OneDriveClient)
    (previous snapshot : DeltaResultInteractor) (r : Round)
    (rounds : list Round) :
  cancelWhileWaiting r = false →
  cancelWhileFetching r = false →
  loadDelta fuel this (remote r) (now r) (next previous) = Resolved snapshot →
  acyclic (results snapshot) →
  (length (results snapshot) < fuel)%nat →
  ∃ batch,
    fst (watchLoop fuel this previous false (r :: rounds))
    = batch :: fst (watchLoop fuel this snapshot (cancelWhileYielded r) rounds)
    ∧ length batch = length (Js.Map_values (results snapshot))
    ∧ ∀ i value,
        Js.Map_values (results snapshot) !! i = Some value →
        deleted value ≠ None →
        ∃ p, getPathForItem fuel (results snapshot) value = Some p
             ∧ batch !! i = Some {| type := Deleted; path := p |}.
Proof.
  intros Hwait Hfetch Hload Hacyclic Hfuel.
  destruct (changes_total fuel snapshot Hacyclic Hfuel) as (batch & Hbatch & Hall).
  exists batch. split; [|split].
  - erewrite watchLoop_round by eassumption. reflexivity.
  - symmetry. eapply Forall2_length, Hall.
  - intros i value Hi Hdeleted.
    destruct (Forall2_lookup_l _ _ _ _ _ Hall Hi) as (change & Hchange & p & Hp & ->).
    exists p. split; [exact Hp|].
    rewrite Hchange, (changeOf_deleted value p Hdeleted). reflexivity.
Qed.

Lemma deleted_path_from_new_snapshot_witness :
  ∃ batch,
    fst (watchLoop 5 Sample.client Sample.baselineSnapshot false
           [Sample.poll "1" "2" [Sample.aTxtGone]])
    = batch :: fst (watchLoop 5 Sample.client Sample.goneSnapshot false [])
    ∧ length batch = length (Js.Map_values (results Sample.goneSnapshot))
    ∧ ∀ i value,
        Js.Map_values (results Sample.goneSnapshot) !! i = Some value →
        deleted value ≠ None →
        ∃ p, getPathForItem 5 (results Sample.goneSnapshot) value = Some p
             ∧ batch !! i = Some {| type := Deleted; path := p |}.
Proof.
  apply (deleted_path_from_new_snapshot 5 Sample.client
           Sample.baselineSnapshot Sample.goneSnapshot
           (Sample.poll "1" "2" [Sample.aTxtGone]) []).
  - reflexivity.
  - reflexivity.
  - reflexivity.
  - exact Sample_goneSnapshot_acyclic.
  - vm_compute. lia.
Defined.

(** Where the generator is asleep after some rounds, the run over further
    rounds goes on from the snapshot it holds. *)
Lemma watchLoop_resume fuel this more before : ∀ results ct left,
  snd (watchLoop fuel this results ct before) = Suspended left →
  watchLoop fuel this results ct (before ++ more)
  = (fst (watchLoop fuel this results ct before)
     ++ fst (watchLoop fuel this left false more),
     snd (watchLoop fuel this left false more)).
Proof.
  induction before as [|r before IH]; intros results ct left.
  - cbn [app]. destruct ct; [by rewrite watchLoop_cancelled|].
    cbn [watchLoop snd fst app]. intros [= <-].
    by destruct (watchLoop fuel this results false more).
  - cbn [app watchLoop]. destruct ct; [done|].
    destruct (cancelWhileWaiting r); [done|].
    destruct (loadDelta fuel this (remote r) (now r) (next results))
      as [snapshot| |]; [|done..].
    destruct (cancelWhileFetching r); [done|].
    destruct (changes fuel snapshot) as [batch|]; [|done].
    specialize (IH snapshot (cancelWhileYielded r) left).
    destruct (watchLoop fuel this snapshot (cancelWhileYielded r) before)
      as [batches ending].
    destruct (watchLoop fuel this snapshot (cancelWhileYielded r)
                (before ++ more)) as [batches' ending'].
    cbn [fst snd] in *. intros Hleft. specialize (IH Hleft).
    by injection IH as -> ->.
Qed.

Lemma watch_resume fuel this driveId start before more left :
  snd (watch fuel this driveId start before) = Suspended left →
  watch fuel this driveId start (before ++ more)
  = (fst (watch fuel this driveId start before)
     ++ fst (watchLoop fuel this left false more),
     snd (watchLoop fuel this left false more)).
Proof.
  unfold watch.
  destruct (loadDelta fuel this (startRemote start) (startNow start) _);
    [apply watchLoop_resume | done..].
Qed.

(** C7. Once the token is cancelled no further batch is yielded, and the
    generator returns.
    - Cancelled while the baseline is loaded, the loop yields nothing, and
      returns as soon as the baseline is there.
    - Cancelled during the sleep of a round, or while the poll of that round
      is in flight, that round and all later ones yield nothing: the batches
      are those of the rounds before it.
    - Cancelled while the generator rests at [yield], the batch just handed
      over is the last.
    - Where the generator was asleep before that round, it returns in it:
      at once when the sleep is cancelled; when the poll in flight resolves,
      its result being dropped; when the poll in flight rejects, by throwing
      that error; and after the batch when it is cancelled at [yield].
    - The sleep is cut short: a token cancelled [t] milliseconds into a
      sleep of [interval] milliseconds, [t < interval], resolves the sleep
      after [t] milliseconds, and the generator returns without a poll. *)
Theorem watch_yields_nothing_after_cancel :
  (∀ fuel this driveId start rounds,
     cancelWhileStarting start = true →
     fst (watch fuel this driveId start rounds) = []
     ∧ ∀ baseline,
         loadDelta fuel this (startRemote start) (startNow start)
           (Some ("drives/" +:+ driveId +:+ "/items/root/delta"))
         = Resolved baseline →
         watch fuel this driveId start rounds = ([], Stopped))
  ∧
  (∀ fuel this driveId start before r after,
     cancelWhileWaiting r || cancelWhileFetching r = true →
     fst (watch fuel this driveId start (before ++ r :: after))
     = fst (watch fuel this driveId start before)
     ∧ ∀ left, snd (watch fuel this driveId start (before ++ r :: after))
               ≠ Suspended left)
  ∧
  (∀ fuel this driveId start before r after,
     cancelWhileYielded r = true →
     fst (watch fuel this driveId start (before ++ r :: after))
     = fst (watch fuel this driveId start (before ++ [r]))
     ∧ ∀ left, snd (watch fuel this driveId start (before ++ r :: after))
               ≠ Suspended left)
  ∧
  (∀ fuel this driveId start before r after left,
     snd (watch fuel this driveId start before) = Suspended left →
     (cancelWhileWaiting r = true →
      watch fuel this driveId start (before ++ r :: after)
      = (fst (watch fuel this driveId start before), Stopped))
     ∧ (∀ snapshot,
          cancelWhileWaiting r = false →
          cancelWhileFetching r = true →
          loadDelta fuel this (remote r) (now r) (next left)
          = Resolved snapshot →
          watch fuel this driveId start (before ++ r :: after)
          = (fst (watch fuel this driveId start before), Stopped))
     ∧ (∀ e,
          cancelWhileWaiting r = false →
          loadDelta fuel this (remote r) (now r) (next left) = Rejected e →
          watch fuel this driveId start (before ++ r :: after)
          = (fst (watch fuel this driveId start before), Failed e))
     ∧ (∀ snapshot batch,
          cancelWhileWaiting r = false →
          cancelWhileFetching r = false →
          cancelWhileYielded r = true →
          loadDelta fuel this (remote r) (now r) (next left)
          = Resolved snapshot →
          changes fuel snapshot = Some batch →
          watch fuel this driveId start (before ++ r :: after)
          = (fst (watch fuel this driveId start before) ++ [batch], Stopped)))
  ∧
  (∀ fuel this driveId start before r after left interval t,
     snd (watch fuel this driveId start before) = Suspended left →
     0 ≤ t < interval →
     sleep interval (Some t) = {| elapsed := t; interrupted := true |}
     ∧ watch fuel this driveId start
         (before ++ sleeping interval (Some t) r :: after)
       = (fst (watch fuel this driveId start before), Stopped)).
Proof.
  split; [|split; [|split; [|split]]].
  - intros fuel this driveId start rounds Hcancel. unfold watch. split.
    + destruct (loadDelta _ _ _ _ _); [|done..].
      rewrite Hcancel, watchLoop_cancelled. reflexivity.
    + intros baseline ->. by rewrite Hcancel, watchLoop_cancelled.
  - intros fuel this driveId start before r after Hcancel. unfold watch.
    destruct (loadDelta _ _ _ _ _); [|done..].
    by apply watchLoop_stops_before_yield.
  - intros fuel this driveId start before r after Hcancel. unfold watch.
    destruct (loadDelta _ _ _ _ _); [|done..].
    by apply watchLoop_stops_after_yield.
  - intros fuel this driveId start before r after left Hleft.
    rewrite (watch_resume fuel this driveId start before (r :: after) left Hleft).
    cbn [watchLoop]. repeat split.
    + intros ->. cbn [fst snd]. by rewrite app_nil_r.
    + intros snapshot -> Hfetch ->. rewrite Hfetch. cbn [fst snd].
      by rewrite app_nil_r.
    + intros e -> ->. cbn [fst snd]. by rewrite app_nil_r.
    + intros snapshot batch -> -> Hyield -> ->.
      rewrite Hyield, watchLoop_cancelled. reflexivity.
  - intros fuel this driveId start before r after left interval t Hleft Ht.
    assert (sleep interval (Some t) = {| elapsed := t; interrupted := true |})
      as Hsleep.
    { unfold sleep. destruct (Z.ltb_spec t interval); [reflexivity | lia]. }
    split; [exact Hsleep|].
    rewrite (watch_resume fuel this driveId start before
               (sleeping interval (Some t) r :: after) left Hleft).
    cbn [watchLoop sleeping cancelWhileWaiting]. rewrite Hsleep.
    cbn [interrupted fst snd]. by rewrite app_nil_r.
Qed.

Lemma watch_yields_nothing_after_cancel_witness :
  watch 5 Sample.client "d1" Sample.baseline
    ([Sample.poll "1" "2" [Sample.oldTxt]]
     ++ Sample.cancelledInFlight (Sample.poll "2" "3" [Sample.aTxtGone])
     :: [Sample.poll "3" "4" [Sample.docs]])
  = ([[{| type := Created; path := "Docs/old.txt" |}]], Stopped)
  ∧ watch 5 Sample.client "d1" Sample.baseline
      ([Sample.poll "1" "2" [Sample.oldTxt]]
       ++ sleeping 10000 (Some 2500) (Sample.poll "2" "3" [Sample.aTxtGone])
       :: [Sample.poll "3" "4" [Sample.docs]])
    = ([[{| type := Created; path := "Docs/old.txt" |}]], Stopped)
  ∧ elapsed (sleep 10000 (Some 2500)) = 2500.
Proof.
  destruct watch_yields_nothing_after_cancel as (_ & _ & _ & Hreturns & Hsleep).
  split; [|split].
  - destruct (Hreturns 5%nat Sample.client "d1" Sample.baseline
                [Sample.poll "1" "2" [Sample.oldTxt]]
                (Sample.cancelledInFlight (Sample.poll "2" "3" [Sample.aTxtGone]))
                [Sample.poll "3" "4" [Sample.docs]]
                (newDeltaResultInteractor
                   {| odata_deltaLink := Some (Sample.cursor "2");
                      odata_nextLink := None;
                      value := [Sample.oldTxt] |}
                   (Some (Some 6000)) 6000)
                eq_refl) as (_ & Hflight & _).
    rewrite (Hflight Sample.goneSnapshotAt3); reflexivity.
  - destruct (Hsleep 5%nat Sample.client "d1" Sample.baseline
                [Sample.poll "1" "2" [Sample.oldTxt]]
                (Sample.poll "2" "3" [Sample.aTxtGone])
                [Sample.poll "3" "4" [Sample.docs]]
                (newDeltaResultInteractor
                   {| odata_deltaLink := Some (Sample.cursor "2");
                      odata_nextLink := None;
                      value := [Sample.oldTxt] |}
                   (Some (Some 6000)) 6000)
                10000 2500 eq_refl) as [_ ->]; [lia|].
    reflexivity.
  - destruct (Hsleep 5%nat Sample.client "d1" Sample.baseline
                [Sample.poll "1" "2" [Sample.oldTxt]]
                (Sample.poll "2" "3" [Sample.aTxtGone])
                [Sample.poll "3" "4" [Sample.docs]]
                (newDeltaResultInteractor
                   {| odata_deltaLink := Some (Sample.cursor "2");
                      odata_nextLink := None;
                      value := [Sample.oldTxt] |}
                   (Some (Some 6000)) 6000)
                10000 2500 eq_refl) as [-> _]; [lia|].
    reflexivity.
Defined.

(** C8. The baseline yields no events. Without a poll round nothing is
    yielded; there are never more batches than poll rounds; every batch is
    the batch of a snapshot that a poll round has loaded; and of the baseline
    only the cursor matters: any snapshot with the same cursor in its place,
    whatever its items, leads to the same batches. *)
Theorem baseline_not_emitted (fuel : nat) (this : OneDriveClient)
    (driveId : string) (start : Start) (rounds : list Round) :
  fst (watch fuel this driveId start []) = []
  ∧ (length (fst (watch fuel this driveId start rounds)) ≤ length rounds)%nat
  ∧ (∀ batch,
       batch ∈ fst (watch fuel this driveId start rounds) →
       ∃ r cursor snapshot,
         r ∈ rounds
         ∧ loadDelta fuel this (remote r) (now r) cursor = Resolved snapshot
         ∧ changes fuel snapshot = Some batch)
  ∧ (∀ baseline other,
       loadDelta fuel this (startRemote start) (startNow start)
         (Some ("drives/" +:+ driveId +:+ "/items/root/delta"))
       = Resolved baseline →
       next other = next baseline →
       fst (watch fuel this driveId start rounds)
       = fst (watchLoop fuel this other (cancelWhileStarting start) rounds)).
Proof.
  unfold watch.
  destruct (loadDelta fuel this (startRemote start) (startNow start) _)
    as [baseline| |] eqn:Hload.
  - split; [by destruct (cancelWhileStarting start)|].
    split; [apply watchLoop_length|].
    split; [apply watchLoop_batches|].
    intros ? other [= <-] Hnext. by apply watchLoop_cursor.
  - repeat split; simpl; try lia; try done. by intros ? ?%elem_of_nil.
  - repeat split; simpl; try lia; try done. by intros ? ?%elem_of_nil.
Qed.

Lemma baseline_not_emitted_witness :
  fst (watch 5 Sample.client "d1" Sample.baseline []) = []
  ∧ fst (watch 5 Sample.client "d1" Sample.baseline
           [Sample.poll "1" "2" [Sample.aTxtGone]])
    = fst (watchLoop 5 Sample.client Sample.bareSnapshot false
             [Sample.poll "1" "2" [Sample.aTxtGone]]).
Proof.
  split.
  - apply (baseline_not_emitted 5 Sample.client "d1" Sample.baseline []).
  - destruct (baseline_not_emitted 5 Sample.client "d1" Sample.baseline
                [Sample.poll "1" "2" [Sample.aTxtGone]]) as (_ & _ & _ & H).
    apply (H Sample.baselineSnapshot Sample.bareSnapshot); reflexivity.
Defined.

(** * The watcher of the provider *)

Section Watcher.

Import FileSystemProvider.

Lemma started_snoc es e :
  started (es ++ [e])
  = started es ++ match e with LoopStarted s _ => [s] | _ => [] end.
Proof. unfold started. rewrite omap_app. destruct e; reflexivity. Qed.

Lemma cancelled_snoc es e :
  cancelled (es ++ [e])
  = cancelled es ++ match e with LoopCancelled s => [s] | _ => [] end.
Proof. unfold cancelled. rewrite omap_app. destruct e; reflexivity. Qed.

Lemma active_started es s d :
  s ∉ cancelled es →
  active (es ++ [LoopStarted s d]) = active es ++ [s].
Proof.
  intros Hs. unfold active.
  rewrite started_snoc, cancelled_snoc, app_nil_r, filter_app.
  rewrite (filter_cons_True _ s []) by exact Hs. reflexivity.
Qed.

Lemma active_cancelled es c :
  active (es ++ [LoopCancelled c]) = filter (λ s, s ≠ c) (active es).
Proof.
  unfold active. rewrite started_snoc, cancelled_snoc, app_nil_r.
  rewrite list_filter_filter. apply list_filter_iff. intros s.
  rewrite not_elem_of_app, list_elem_of_singleton. tauto.
Qed.

Lemma live_snoc (hs : list Handle) uri :
  filter (λ h, disposed h = false) (hs ++ [{| requested := uri; disposed := false |}])
  = filter (λ h, disposed h = false) hs ++ [{| requested := uri; disposed := false |}].
Proof. rewrite filter_app. reflexivity. Qed.

(** Marking a handle that was still live takes one from the live ones. *)
Lemma live_disposed (hs : list Handle) h handle :
  hs !! h = Some handle → disposed handle = false →
  S (length (filter (λ x, disposed x = false)
               (<[h := {| requested := requested handle; disposed := true |}]> hs)))
  = length (filter (λ x, disposed x = false) hs).
Proof.
  intros Hh Hlive.
  rewrite insert_take_drop by (eapply lookup_lt_Some, Hh).
  rewrite <- (take_drop_middle hs h handle Hh) at 3.
  rewrite !filter_app, !length_app.
  rewrite (filter_cons_True _ handle) by exact Hlive.
  rewrite filter_cons_False by (simpl; discriminate).
  simpl. lia.
Qed.

(** Disposing of a handle that is already disposed of changes nothing. *)
Lemma dispose_again h handle p :
  handles p !! h = Some handle → disposed handle = true → dispose h p = p.
Proof.
  intros Hh Hd. unfold dispose. rewrite Hh, Hd. cbn [negb].
  destruct p as [w hs n es]. simpl in *. f_equal.
  apply list_insert_id. rewrite Hh. destruct handle; simpl in *; congruence.
Qed.

Lemma consistent_initial : consistent initial.
Proof.
  unfold consistent; simpl. repeat split; try done. constructor.
Qed.

Lemma consistent_watch uri p : consistent p → consistent (fst (watch uri p)).
Proof.
  intros (Hcount & Hpos & Hactive & Hstarted & Hnodup & Hsub).
  unfold watch. destruct (watcher p) as [w|] eqn:Hw.
  - unfold consistent, refCount, live in *; cbn [fst watcher handles effects sources].
    rewrite Hw in Hcount. rewrite live_snoc, length_app. simpl.
    repeat split; try assumption; [lia|].
    intros w' [= <-]. simpl. specialize (Hpos w eq_refl). lia.
  - destruct (parseUri uri) as [[d rest]| |]; cbn [fst];
      [|repeat split; try assumption; by rewrite Hw..].
    unfold consistent, refCount, live in *;
      cbn [watcher handles effects sources count].
    rewrite Hw in Hcount. rewrite live_snoc, length_app. cbn [length].
    assert (sources p ∉ cancelled (effects p)) as Hfresh.
    { intros Hin%Hsub. rewrite Hstarted in Hin.
      apply elem_of_seq in Hin. lia. }
    repeat split.
    + lia.
    + intros w' [= <-]. simpl. lia.
    + rewrite active_started, Hactive by exact Hfresh. reflexivity.
    + rewrite started_snoc, Hstarted, seq_S. reflexivity.
    + rewrite cancelled_snoc, app_nil_r. exact Hnodup.
    + rewrite cancelled_snoc, started_snoc, app_nil_r.
      intros s Hs. apply elem_of_app. left. by apply Hsub.
Qed.

Lemma consistent_dispose h p : consistent p → consistent (dispose h p).
Proof.
  intros Hp. destruct (handles p !! h) as [handle|] eqn:Hh;
    [|unfold dispose; rewrite Hh; exact Hp].
  destruct (disposed handle) eqn:Hd;
    [rewrite (dispose_again h handle p Hh Hd); exact Hp|].
  destruct Hp as (Hcount & Hpos & Hactive & Hstarted & Hnodup & Hsub).
  pose proof (live_disposed (handles p) h handle Hh Hd) as Hlive.
  unfold dispose, release. rewrite Hh, Hd. cbn [negb].
  unfold consistent, refCount, live in *.
  destruct (watcher p) as [w|] eqn:Hw; cbn [count cts].
  - specialize (Hpos w eq_refl).
    destruct (Z.eqb_spec (count w - 1) 0) as [Hzero|Hnonzero];
      cbn [watcher handles effects sources].
    + assert (cts w ∈ active (effects p)) as Hin
        by (rewrite Hactive; apply list_elem_of_here).
      apply list_elem_of_filter in Hin as [Hnot Hin].
      repeat split.
      * lia.
      * done.
      * rewrite active_cancelled, Hactive.
        rewrite filter_cons_False by (intros H; by apply H). reflexivity.
      * rewrite started_snoc, app_nil_r. exact Hstarted.
      * rewrite cancelled_snoc. apply NoDup_app. repeat split.
        -- exact Hnodup.
        -- intros s Hs ->%list_elem_of_singleton. by apply Hnot.
        -- apply NoDup_singleton.
      * rewrite cancelled_snoc, started_snoc, app_nil_r.
        intros s [Hs| ->%list_elem_of_singleton]%elem_of_app;
          [by apply Hsub | exact Hin].
    + repeat split; try assumption; [simpl; lia|].
      intros w' [= <-]. simpl. lia.
  - exfalso. lia.
Qed.

Lemma consistent_step p op : consistent p → consistent (step p op).
Proof.
  destruct op; [apply consistent_watch | apply consistent_dispose].
Qed.

Lemma consistent_fold ops : ∀ p,
  consistent p → consistent (fold_left step ops p).
Proof.
  induction ops as [|op ops IH]; intros p Hp; [exact Hp|].
  apply IH, consistent_step, Hp.
Qed.

Lemma consistent_run ops : consistent (run ops).
Proof. apply consistent_fold, consistent_initial. Qed.

(** Once disposed of, a handle stays so. *)
Lemma disposed_step p op h handle :
  handles p !! h = Some handle → disposed handle = true →
  ∃ handle', handles (step p op) !! h = Some handle' ∧ disposed handle' = true.
Proof.
  intros Hh Hd. destruct op as [uri|h']; cbn [step].
  - exists handle. split; [|exact Hd]. unfold watch.
    destruct (watcher p); [|destruct (parseUri uri) as [[? ?]| |]];
      cbn [fst handles]; try exact Hh; by apply lookup_app_l_Some.
  - unfold dispose. destruct (handles p !! h') as [other|] eqn:Hother;
      [|by exists handle].
    cbn [handles].
    assert (handles (if negb (disposed other) then release p else p)
            = handles p) as ->.
    { destruct (negb (disposed other)); [|reflexivity].
      unfold release. destruct (watcher p); [|reflexivity].
      by destruct (_ =? _). }
    destruct (decide (h' = h)) as [->|Hne].
    + exists {| requested := requested other; disposed := true |}.
      split; [|reflexivity].
      apply list_lookup_insert_eq. eapply lookup_lt_Some, Hh.
    + exists handle. split; [|exact Hd]. by rewrite list_lookup_insert_ne.
Qed.

Lemma disposed_fold ops : ∀ p h handle,
  handles p !! h = Some handle → disposed handle = true →
  ∃ handle', handles (fold_left step ops p) !! h = Some handle'
             ∧ disposed handle' = true.
Proof.
  induction ops as [|op ops IH]; intros p h handle Hh Hd; [by exists handle|].
  destruct (disposed_step p op h handle Hh Hd) as (handle' & Hh' & Hd').
  exact (IH _ _ _ Hh' Hd').
Qed.

End Watcher.

Section WatcherClaims.

Import FileSystemProvider.

Lemma watcher_positive ops w : watcher (run ops) = Some w → 0 < count w.
Proof. intros Hw. by apply (consistent_run ops). Qed.

(** One loop for two observers; the double [dispose] of the first does not
    stop it, the [dispose] of the second does, and a later [watch] starts a
    new one. *)
Lemma fanIn_effects :
  effects (run Sample.fanIn)
  = [LoopStarted 0 "driveA"; LoopCancelled 0; LoopStarted 1 "driveA"]
  ∧ effects (run (take 4 Sample.fanIn)) = [LoopStarted 0 "driveA"]
  ∧ refCount (run (take 4 Sample.fanIn)) = 1.
Proof. repeat split; reflexivity. Qed.

(** C3 (amended). The provider keeps one watcher for all its observers,
    whatever drive each of them asks for. After any calls of [watch] and
    [dispose]: the count is the number of handles not yet disposed of; at
    most one loop is going, the one of the watcher, and none when the count
    is zero; no token source is started twice or cancelled twice. A call
    of [watch] starts a loop exactly when the count is zero, for the drive
    of that call; a call that finds a watcher joins it and starts nothing,
    also when it names another drive. A call of [dispose] cancels the
    token exactly when it is the first for its handle and the count is
    one. *)
Theorem watcher_is_shared (ops : list Op) :
  refCount (run ops) = Z.of_nat (length (live (run ops)))
  ∧ active (effects (run ops))
    = match watcher (run ops) with Some w => [cts w] | None => [] end
  ∧ (length (active (effects (run ops))) ≤ 1)%nat
  ∧ (refCount (run ops) = 0 ↔ active (effects (run ops)) = [])
  ∧ NoDup (started (effects (run ops)))
  ∧ NoDup (cancelled (effects (run ops)))
  ∧ (∀ uri,
       effects (fst (watch uri (run ops)))
       = effects (run ops)
         ++ (if refCount (run ops) =? 0 then
               match parseUri uri with
               | Resolved (driveId, _) =>
                   [LoopStarted (sources (run ops)) driveId]
               | _ => []
               end
             else []))
  ∧ (∀ h,
       effects (dispose h (run ops))
       = effects (run ops)
         ++ match handles (run ops) !! h, watcher (run ops) with
            | Some handle, Some w =>
                if negb (disposed handle) && (count w =? 1)
                then [LoopCancelled (cts w)] else []
            | _, _ => []
            end).
Proof.
  pose proof (consistent_run ops)
    as (Hcount & Hpos & Hactive & Hstarted & Hnodup & Hsub).
  split; [exact Hcount|]. split; [exact Hactive|].
  split; [rewrite Hactive; destruct (watcher (run ops)); simpl; lia|].
  split.
  { rewrite Hactive. unfold refCount.
    destruct (watcher (run ops)) as [w|]; [|done].
    specialize (Hpos w eq_refl). split; [lia | done]. }
  split; [rewrite Hstarted; apply NoDup_seq|]. split; [exact Hnodup|].
  split.
  - intros uri. unfold watch, refCount.
    destruct (watcher (run ops)) as [w|].
    + specialize (Hpos w eq_refl). cbn [fst effects].
      destruct (Z.eqb_spec (count w) 0); [lia|]. by rewrite app_nil_r.
    + cbn [Z.eqb].
      destruct (parseUri uri) as [[driveId rest]| |]; cbn [fst effects];
        by rewrite ?app_nil_r.
  - intros h. unfold dispose.
    destruct (handles (run ops) !! h) as [handle|];
      [|by destruct (watcher (run ops)); rewrite app_nil_r].
    cbn [effects].
    destruct (disposed handle); cbn [negb andb];
      [by destruct (watcher (run ops)); rewrite app_nil_r|].
    unfold release. destruct (watcher (run ops)) as [w|];
      [|by rewrite app_nil_r].
    cbn [count cts].
    destruct (Z.eqb_spec (count w - 1) 0), (Z.eqb_spec (count w) 1);
      try lia; cbn [effects]; by rewrite ?app_nil_r.
Qed.

(** C3 as stated fails when observers name different drives: after a watch
    on [driveA] and one on [driveB], both handles are live, the only loop
    started is the one for [driveA], and no loop serves [driveB]. *)
Lemma second_drive_counterexample :
  length (liveFor "driveB" (run Sample.twoDrives)) = 1%nat
  ∧ activeFor "driveB" (effects (run Sample.twoDrives)) = []
  ∧ effects (run Sample.twoDrives) = [LoopStarted 0 "driveA"]
  ∧ refCount (run Sample.twoDrives) = 2.
Proof. repeat split; reflexivity. Qed.

(** C10. Disposing of a handle is idempotent. The first [dispose] of a live
    handle takes one from the count; after it, in whatever state later
    calls have led to, a further [dispose] of the same handle leaves the
    provider as it is: the count is not touched and no token is
    cancelled. *)
Theorem dispose_idempotent (ops : list Op) (h : nat) (handle : Handle) :
  handles (run ops) !! h = Some handle →
  disposed handle = false →
  refCount (dispose h (run ops)) = refCount (run ops) - 1
  ∧ ∀ later,
      dispose h (run (ops ++ Dispose h :: later))
      = run (ops ++ Dispose h :: later).
Proof.
  intros Hh Hd. split.
  - pose proof (consistent_run ops) as (Hcount & _).
    assert (0 < length (live (run ops)))%nat as Hlive.
    { unfold live.
      assert (handle ∈ filter (λ x, disposed x = false) (handles (run ops)))
        as Hin
        by (apply list_elem_of_filter; split;
            [exact Hd | eapply list_elem_of_lookup_2, Hh]).
      destruct (filter _ _); [by apply elem_of_nil in Hin | simpl; lia]. }
    unfold dispose, release, refCount in *. rewrite Hh, Hd. cbn [negb].
    destruct (watcher (run ops)) as [w|]; [|lia]. cbn [count].
    destruct (Z.eqb_spec (count w - 1) 0) as [Hzero|_]; cbn [watcher count];
      lia.
  - intros later. unfold run. rewrite fold_left_app. cbn [fold_left step].
    fold (run ops).
    destruct (disposed_fold later (dispose h (run ops)) h
                {| requested := requested handle; disposed := true |})
      as (handle' & Hh' & Hd'); [|reflexivity|].
    + unfold dispose. rewrite Hh. cbn [handles].
      apply list_lookup_insert_eq.
      rewrite Hd. cbn [negb]. unfold release.
      destruct (watcher (run ops)); [destruct (_ =? _)|]; cbn [handles];
        eapply lookup_lt_Some, Hh.
    + exact (dispose_again h handle' _ Hh' Hd').
Qed.

Lemma dispose_idempotent_witness :
  refCount (dispose 1 (run Sample.threeObservers))
  = refCount (run Sample.threeObservers) - 1
  ∧ ∀ later,
      dispose 1 (run (Sample.threeObservers ++ Dispose 1 :: later))
      = run (Sample.threeObservers ++ Dispose 1 :: later).
Proof.
  apply (dispose_idempotent Sample.threeObservers 1
           {| requested := Sample.onedrive "driveA" "/src";
              disposed := false |});
    reflexivity.
Defined.

End WatcherClaims.

(** * Deleting *)

Lemma client_delete_missing encodeURI this remote driveId p e :
  client_fetch this remote DELETE
    ("drives/" +:+ driveId +:+ "/items/root:/" +:+ encodeURI p) = Rejected e →
  ResponseError_is e 404 = true →
  client_delete encodeURI this remote driveId p = Resolved tt.
Proof. unfold client_delete. intros -> ->. reflexivity. Qed.

Lemma client_delete_failure encodeURI this remote driveId p e :
  client_fetch this remote DELETE
    ("drives/" +:+ driveId +:+ "/items/root:/" +:+ encodeURI p) = Rejected e →
  ResponseError_is e 404 = false →
  client_delete encodeURI this remote driveId p = Rejected e.
Proof. unfold client_delete. intros -> ->. reflexivity. Qed.

(** Whatever the service answers, the promise [delete] of the provider
    returns is resolved as soon as the uri parses and the client is there. *)
Lemma provider_delete_resolves encodeURI client remote uri c :
  uri_scheme uri = FileSystemProvider.scheme →
  demandForFs client = Resolved c →
  returned (FileSystemProvider.delete encodeURI client remote uri) = Resolved tt.
Proof.
  intros Hscheme Hclient. unfold FileSystemProvider.delete,
    FileSystemProvider.parseUri.
  rewrite Hscheme, String.eqb_refl, Hclient. reflexivity.
Qed.

(** C4. The code at a service that answers every request with 500: the
    [delete] of the client rejects with that error, and the [delete] of the
    provider, which does not await it, resolves; the rejection is left on a
    promise nobody holds, where the specification has the error reach the
    caller, as it does in [writeFile]. A 404 is swallowed. *)
Theorem delete_loses_remote_failure :
  client_delete Sample.encodeURI Sample.client Sample.broken "d1" "Docs/a.txt"
  = Rejected
      (ResponseError 500
         "https://graph.microsoft.com/v1.0/drives/d1/items/root:/Docs/a.txt"
         "error")
  ∧ returned (FileSystemProvider.delete Sample.encodeURI Sample.signedIn
                Sample.broken (Sample.onedrive "d1" "/Docs/a.txt"))
    = Resolved tt
  ∧ floating (FileSystemProvider.delete Sample.encodeURI Sample.signedIn
                Sample.broken (Sample.onedrive "d1" "/Docs/a.txt"))
    = [Rejected
         (ResponseError 500
            "https://graph.microsoft.com/v1.0/drives/d1/items/root:/Docs/a.txt"
            "error")]
  ∧ returned (FileSystemProvider.writeFile Sample.encodeURI Sample.signedIn
                Sample.broken (Sample.onedrive "d1" "/Docs/a.txt"))
    = Rejected
        (ResponseError 500
           "https://graph.microsoft.com/v1.0/drives/d1/items/root:/Docs/a.txt:/content"
           "error")
  ∧ client_delete Sample.encodeURI Sample.client Sample.empty "d1" "Docs/a.txt"
    = Resolved tt.
Proof. repeat split; reflexivity. Qed.

(** * Paths and uris *)

Lemma String_append_cons x (a b : string) :
  String x a +:+ b = String x (a +:+ b).
Proof. reflexivity. Qed.

Lemma String_append_assoc (a b c : string) : (a +:+ b) +:+ c = a +:+ (b +:+ c).
Proof.
  induction a as [|x a IH]; [reflexivity|].
  rewrite !String_append_cons. by f_equal.
Qed.

Lemma String_append_empty_r (a : string) : a +:+ "" = a.
Proof.
  induction a as [|x a IH]; [reflexivity|].
  rewrite String_append_cons. by f_equal.
Qed.

Lemma Js_take_slice n : ∀ s, Js.take n s +:+ Js.slice n s = s.
Proof.
  induction n as [|n IH]; intros [|a t]; cbn [Js.take Js.slice];
    try reflexivity.
  rewrite String_append_cons. f_equal. apply IH.
Qed.

Lemma Js_lastIndexOf_range s c :
  -1 ≤ Js.lastIndexOf s c < Z.of_nat (String.length s).
Proof.
  induction s as [|a t IH]; simpl; [lia|].
  destruct (Z.leb_spec 0 (Js.lastIndexOf t c)); [lia|].
  destruct (Ascii.eqb a c); lia.
Qed.

(** At a non-negative [lastIndexOf] the string splits into what is before
    the character, the character, and a rest that is free of it. *)
Lemma Js_lastIndexOf_split c : ∀ s,
  0 ≤ Js.lastIndexOf s c →
  s = Js.take (Z.to_nat (Js.lastIndexOf s c)) s
      +:+ String c (Js.slice (Z.to_nat (Js.lastIndexOf s c + 1)) s)
  ∧ Js.lastIndexOf (Js.slice (Z.to_nat (Js.lastIndexOf s c + 1)) s) c = -1.
Proof.
  induction s as [|a t IH]; cbn [Js.lastIndexOf]; [lia|].
  pose proof (Js_lastIndexOf_range t c) as Hrange.
  destruct (Z.leb_spec 0 (Js.lastIndexOf t c)) as [Hfound|Hnone].
  - intros _. destruct (IH Hfound) as [Hsplit Hfree].
    replace (Z.to_nat (Js.lastIndexOf t c + 1))
      with (S (Z.to_nat (Js.lastIndexOf t c))) in * by lia.
    replace (Z.to_nat (Js.lastIndexOf t c + 1 + 1))
      with (S (S (Z.to_nat (Js.lastIndexOf t c)))) by lia.
    cbn [Js.take Js.slice]. split; [|exact Hfree].
    rewrite String_append_cons. f_equal. exact Hsplit.
  - destruct (Ascii.eqb_spec a c) as [->|_]; [|lia]. intros _.
    change (Z.to_nat 0) with 0%nat. change (Z.to_nat (0 + 1)) with 1%nat.
    cbn [Js.take Js.slice].
    split; [reflexivity | lia].
Qed.

Lemma Js_startsWith_slash_found s :
  Js.startsWith s "/" = true → 0 ≤ Js.lastIndexOf s "/".
Proof.
  destruct s as [|a t]; cbn [Js.startsWith Js.lastIndexOf]; [done|].
  pose proof (Js_lastIndexOf_range t "/").
  destruct (Z.leb_spec 0 (Js.lastIndexOf t "/")); [lia|].
  rewrite Ascii.eqb_sym. destruct (Ascii.eqb a "/"); [lia | done].
Qed.

Lemma Js_stripLeadingSlashes_clean s :
  Js.startsWith (Js.stripLeadingSlashes s) "/" = false.
Proof.
  induction s as [|a t IH]; cbn [Js.stripLeadingSlashes]; [reflexivity|].
  destruct (Ascii.eqb a "/") eqn:Ha; [exact IH|].
  cbn [Js.startsWith]. rewrite Ascii.eqb_sym, Ha. reflexivity.
Qed.

Lemma Js_stripLeadingSlashes_id s :
  Js.startsWith s "/" = false → Js.stripLeadingSlashes s = s.
Proof.
  destruct s as [|a t]; cbn [Js.startsWith Js.stripLeadingSlashes];
    [reflexivity|].
  rewrite Ascii.eqb_sym.
  destruct (Ascii.eqb a "/"); [by destruct t | reflexivity].
Qed.

Lemma Js_stripLeadingSlashes_prefix s :
  ∃ slashes, s = slashes +:+ Js.stripLeadingSlashes s
             ∧ Js.stripLeadingSlashes slashes = "".
Proof.
  induction s as [|a t (slashes & Hs & Hslashes)];
    cbn [Js.stripLeadingSlashes]; [by exists ""|].
  destruct (Ascii.eqb_spec a "/") as [->|Hne].
  - exists (String "/" slashes).
    split; [rewrite String_append_cons; by f_equal|].
    cbn [Js.stripLeadingSlashes]. rewrite Ascii.eqb_refl. exact Hslashes.
  - by exists "".
Qed.

(** X1. [parseUri] either throws [Unsupported scheme] (exactly for a scheme
    other than [onedrive]) or returns the authority as the drive and the path
    without its leading slashes: what it returns never starts with a slash,
    and the path of the uri is that preceded by slashes only. *)
Theorem parseUri_strips_slashes (uri : Uri) :
  match FileSystemProvider.parseUri uri with
  | Resolved (driveId, p) =>
      uri_scheme uri = "onedrive"
      ∧ driveId = uri_authority uri
      ∧ Js.startsWith p "/" = false
      ∧ ∃ slashes, uri_path uri = slashes +:+ p
                   ∧ Js.stripLeadingSlashes slashes = ""
  | Rejected e =>
      uri_scheme uri ≠ "onedrive"
      ∧ e = Error ("Unsupported scheme: " +:+ uri_scheme uri)
  | Pending => False
  end.
Proof.
  unfold FileSystemProvider.parseUri, FileSystemProvider.scheme.
  destruct (String.eqb_spec (uri_scheme uri) "onedrive") as [Heq|Hne];
    cbn [negb].
  - repeat split; [exact Heq | apply Js_stripLeadingSlashes_clean |].
    apply Js_stripLeadingSlashes_prefix.
  - split; [exact Hne | reflexivity].
Qed.

(** X2. For a uri whose path starts with a slash, [parentUri] and [basename]
    split the path at its last slash: the path of the parent, a slash and
    the base name give the path back, the base name holds no slash, and
    scheme and authority of the parent are those of the uri. *)
Theorem parentUri_basename_split (uri : Uri) :
  Js.startsWith (uri_path uri) "/" = true →
  uri_path (FileSystemProvider.parentUri uri) +:+ "/"
    +:+ FileSystemProvider.basename uri = uri_path uri
  ∧ Js.lastIndexOf (FileSystemProvider.basename uri) "/" = -1
  ∧ uri_scheme (FileSystemProvider.parentUri uri) = uri_scheme uri
  ∧ uri_authority (FileSystemProvider.parentUri uri) = uri_authority uri.
Proof.
  intros Hslash. apply Js_startsWith_slash_found in Hslash.
  pose proof (Js_lastIndexOf_range (uri_path uri) "/") as Hrange.
  destruct (Js_lastIndexOf_split "/" (uri_path uri) Hslash) as [Hsplit Hfree].
  unfold FileSystemProvider.parentUri, FileSystemProvider.basename.
  cbn [uri_path uri_scheme uri_authority].
  repeat split; [|exact Hfree].
  unfold Js.sliceRange, Js.clampIndex.
  destruct (Z.ltb_spec 0 0); [lia|].
  destruct (Z.ltb_spec (Js.lastIndexOf (uri_path uri) "/") 0); [lia|].
  rewrite Z.min_l, Z.min_l by lia.
  rewrite Z.sub_0_r. change (Z.to_nat 0) with 0%nat.
  replace (Js.slice 0 (uri_path uri)) with (uri_path uri)
    by (by destruct (uri_path uri)).
  symmetry. exact Hsplit.
Qed.

Lemma parentUri_basename_split_witness :
  uri_path (FileSystemProvider.parentUri (Sample.onedrive "d1" "/Docs/a.txt"))
    +:+ "/" +:+ FileSystemProvider.basename (Sample.onedrive "d1" "/Docs/a.txt")
  = "/Docs/a.txt"
  ∧ FileSystemProvider.basename (Sample.onedrive "d1" "/Docs/a.txt") = "a.txt".
Proof.
  split; [|reflexivity].
  apply (parentUri_basename_split (Sample.onedrive "d1" "/Docs/a.txt")).
  reflexivity.
Defined.

(** X3. The uri of every event the provider fires for a batch is one of its
    own: in the order of the batch, each event has the type of its change,
    and [parseUri] reads from its uri the drive that is watched and the path
    of the change (without leading slashes, if it had any). *)
Theorem fileChangeEvents_parse (driveId : string) (batch : list Change) :
  Forall2 (λ change event,
             FileSystemProvider.eventType event = type change
             ∧ FileSystemProvider.parseUri (FileSystemProvider.eventUri event)
               = Resolved (driveId, Js.stripLeadingSlashes (path change))
             ∧ (Js.startsWith (path change) "/" = false →
                FileSystemProvider.parseUri (FileSystemProvider.eventUri event)
                = Resolved (driveId, path change)))
          batch (FileSystemProvider.fileChangeEvents driveId batch).
Proof.
  induction batch as [|change batch IH]; [constructor|].
  cbn [FileSystemProvider.fileChangeEvents map]. constructor; [|exact IH].
  cbn [FileSystemProvider.eventType FileSystemProvider.eventUri]. split; [reflexivity|].
  assert (FileSystemProvider.parseUri
            {| uri_scheme := FileSystemProvider.scheme;
               uri_authority := driveId;
               uri_path := "/" +:+ path change |}
          = Resolved (driveId, Js.stripLeadingSlashes (path change))) as H
    by reflexivity.
  split; [exact H|]. intros Hclean. rewrite H.
  by rewrite Js_stripLeadingSlashes_id.
Qed.

(** * The snapshot of a round *)

Lemma Map_get_set {V : Type} (m : Js.Map V) k v k' :
  Js.Map_get (Js.Map_set k v m) k'
  = if String.eqb k k' then Some v else Js.Map_get m k'.
Proof.
  induction m as [|[k0 v0] m IH]; cbn [Js.Map_set Js.Map_get]; [reflexivity|].
  destruct (String.eqb_spec k0 k) as [->|Hne]; cbn [Js.Map_get].
  - by destruct (String.eqb k k').
  - rewrite IH. destruct (String.eqb_spec k0 k') as [<-|_]; [|reflexivity].
    destruct (String.eqb_spec k k0) as [->|_]; [done | reflexivity].
Qed.

Lemma Map_keys_set {V : Type} (m : Js.Map V) k v :
  Js.Map_keys (Js.Map_set k v m)
  = if decide (k ∈ Js.Map_keys m) then Js.Map_keys m else Js.Map_keys m ++ [k].
Proof.
  induction m as [|[k0 v0] m IH]; cbn [Js.Map_set Js.Map_keys map fst];
    [by rewrite decide_False by apply not_elem_of_nil|].
  destruct (String.eqb_spec k0 k) as [->|Hne]; cbn [map fst].
  - by rewrite decide_True by apply list_elem_of_here.
  - fold (Js.Map_keys (Js.Map_set k v m)). rewrite IH.
    fold (Js.Map_keys m).
    destruct (decide (k ∈ Js.Map_keys m)) as [Hin|Hnotin].
    + by rewrite decide_True by (by apply list_elem_of_further).
    + rewrite decide_False; [reflexivity|].
      intros [?|?]%elem_of_cons; congruence.
Qed.

Lemma Map_values_ids_set (m : Js.Map DriveItem) item :
  Forall (λ entry, id (snd entry) = fst entry) m →
  Forall (λ entry, id (snd entry) = fst entry) (Js.Map_set (id item) item m).
Proof.
  induction 1 as [|[k0 v0] m Hhead Htail IH]; cbn [Js.Map_set].
  - by constructor.
  - destruct (String.eqb k0 (id item)); constructor; try done.
Qed.

Section Snapshot.

Context (items : list DriveItem).

Let put (m : Js.Map DriveItem) (item : DriveItem) : Js.Map DriveItem :=
  Js.Map_set (id item) item m.

Lemma snapshot_get : ∀ m k,
  Js.Map_get (fold_left put items m) k
  = match last (filter (λ item, id item = k) items) with
    | Some item => Some item
    | None => Js.Map_get m k
    end.
Proof.
  induction items as [|item rest IH]; intros m k; cbn [fold_left];
    [reflexivity|].
  rewrite IH. unfold put. rewrite Map_get_set, filter_cons.
  destruct (decide (id item = k)) as [->|Hne].
  - rewrite String.eqb_refl, last_cons. by destruct (last _).
  - destruct (String.eqb_spec (id item) k); [done | reflexivity].
Qed.

Lemma snapshot_keys : ∀ m,
  NoDup (Js.Map_keys m) →
  NoDup (Js.Map_keys (fold_left put items m))
  ∧ (∀ k, k ∈ Js.Map_keys (fold_left put items m)
          ↔ k ∈ Js.Map_keys m ∨ k ∈ map id items)
  ∧ (length (fold_left put items m) ≤ length m + length items)%nat.
Proof.
  induction items as [|item rest IH]; intros m Hm; cbn [fold_left map length].
  - split; [exact Hm|]. split; [|lia].
    intros k. split; [by left | by intros [?|?%elem_of_nil]].
  - assert (NoDup (Js.Map_keys (put m item))) as Hput.
    { unfold put. rewrite Map_keys_set. case_decide; [exact Hm|].
      apply NoDup_app. repeat split; [exact Hm | | apply NoDup_singleton].
      intros k Hk ->%list_elem_of_singleton. done. }
    destruct (IH (put m item) Hput) as (Hnodup & Hkeys & Hlen).
    split; [exact Hnodup|]. split.
    + intros k. rewrite Hkeys. unfold put. rewrite Map_keys_set.
      rewrite elem_of_cons. case_decide as Hin.
      * split; [tauto|]. intros [?|[->|?]]; tauto.
      * rewrite elem_of_app, list_elem_of_singleton. tauto.
    + assert (length (put m item) ≤ S (length m))%nat as Hone.
      { unfold put. rewrite <- !(length_map fst).
        change (map fst ?x) with (Js.Map_keys x). rewrite Map_keys_set.
        case_decide; rewrite ?length_app; simpl; lia. }
      lia.
Qed.

Lemma snapshot_ids : ∀ m,
  Forall (λ entry, id (snd entry) = fst entry) m →
  Forall (λ entry, id (snd entry) = fst entry) (fold_left put items m).
Proof.
  induction items as [|item rest IH]; intros m Hm; cbn [fold_left];
    [exact Hm|].
  apply IH, Map_values_ids_set, Hm.
Qed.

End Snapshot.

(** X4. The snapshot built from a delta response holds each id once. Looking
    an id up gives the last item of the response that has it (a later page
    overrides an earlier one), every entry is filed under the id of its
    item, the ids of the snapshot are those of the response, and there are
    no more entries than items. *)
Theorem snapshot_holds_last_item (res : JsonBody)
    (dateHeader : option Js.DateTime) (now : Z) :
  (∀ k, Js.Map_get (results (newDeltaResultInteractor res dateHeader now)) k
        = last (filter (λ item, id item = k) (value res)))
  ∧ NoDup (Js.Map_keys (results (newDeltaResultInteractor res dateHeader now)))
  ∧ (∀ k, k ∈ Js.Map_keys (results (newDeltaResultInteractor res dateHeader now))
          ↔ k ∈ map id (value res))
  ∧ Forall (λ entry, id (snd entry) = fst entry)
           (results (newDeltaResultInteractor res dateHeader now))
  ∧ (length (results (newDeltaResultInteractor res dateHeader now))
     ≤ length (value res))%nat.
Proof.
  cbn [results newDeltaResultInteractor].
  destruct (snapshot_keys (value res) [] (NoDup_nil_2 (A:=string))) as (Hnodup & Hkeys & Hlen).
  split; [|split; [exact Hnodup|split; [|split]]].
  - intros k. rewrite (snapshot_get (value res) [] k). by destruct (last _).
  - intros k. rewrite (Hkeys k). split; [by intros [?%elem_of_nil|?] | by right].
  - apply (snapshot_ids (value res) []). constructor.
  - exact Hlen.
Qed.

(** * More on path resolution *)

Lemma truthy_str_false_not_root_prefix (p : option string) :
  Js.truthy_str p = false → Js.strict_eq p driveRootPrefix = false.
Proof.
  destruct p as [s|]; [|reflexivity]. cbn [Js.truthy_str Js.strict_eq].
  destruct (String.eqb_spec s driveRootPrefix) as [->|_]; [done | reflexivity].
Qed.

(** X5. The path of the drive root is empty, and the path of any other item
    ends with the name of the item: it is the name alone, or something, a
    slash and the name. *)
Theorem getPathForItem_ends_with_name (fuel : nat)
    (snapshot : Js.Map DriveItem) (item : DriveItem) (p : string) :
  getPathForItem fuel snapshot item = Some p →
  match root item with
  | Some _ => p = ""
  | None => p = name item ∨ ∃ before, p = before +:+ "/" +:+ name item
  end.
Proof.
  destruct fuel as [|fuel]; [done|]. cbn [getPathForItem].
  destruct (root item); cbn [Js.truthy_obj]; [by intros [= <-]|].
  destruct (parentReference item) as [ref|]; [|intros [= <-]; by left].
  destruct (Js.strict_eq (pr_path ref) driveRootPrefix);
    [intros [= <-]; by left|].
  destruct (Js.truthy_str (pr_path ref)); [intros [= <-]; right; by eexists|].
  destruct (Js.Map_get snapshot (pr_id ref)) as [parentItem|];
    [|intros [= <-]; by left].
  destruct (getPathForItem fuel snapshot parentItem) as [q|]; [|done].
  intros [= <-]. right. by exists q.
Qed.

Lemma getPathForItem_ends_with_name_witness :
  "Docs/a.txt" = name Sample.aTxt
  ∨ ∃ before, "Docs/a.txt" = before +:+ "/" +:+ name Sample.aTxt.
Proof.
  apply (getPathForItem_ends_with_name 2 Sample.snapshot Sample.aTxt "Docs/a.txt").
  reflexivity.
Defined.

(** X6. Where the calls of [getPathForItem] on itself can go on for ever,
    it never returns: if every item of a set makes its call on an item of
    the same set (as the items of a cycle of id-only parent references do),
    then no fuel makes the resolution of any of them return, and a round
    whose snapshot holds one of them has no batch. *)
Theorem getPathForItem_loops (snapshot : Js.Map DriveItem)
    (loop : DriveItem → Prop) :
  (∀ x, loop x → ∃ y, recursesTo snapshot x y ∧ loop y) →
  (∀ fuel x, loop x → getPathForItem fuel snapshot x = None)
  ∧ (∀ fuel next, results next = snapshot →
       (∃ x, x ∈ Js.Map_values snapshot ∧ loop x) →
       changes fuel next = None).
Proof.
  intros Hloop.
  assert (∀ fuel x, loop x → getPathForItem fuel snapshot x = None) as Hnone.
  { induction fuel as [|fuel IH]; intros x Hx; [reflexivity|].
    destruct (Hloop x Hx) as (y & (Hroot & ref & Href & Hpath & Hget) & Hy).
    cbn [getPathForItem].
    rewrite Hroot, Href, (truthy_str_false_not_root_prefix _ Hpath), Hpath, Hget.
    cbn [Js.truthy_obj]. by rewrite (IH y Hy). }
  split; [exact Hnone|].
  intros fuel next <- (x & Hin & Hx). unfold changes.
  apply mapM_None_2, Exists_exists. exists x. split; [exact Hin|].
  by rewrite (Hnone fuel x Hx).
Qed.

Lemma getPathForItem_loops_witness :
  getPathForItem 7 [("P", Sample.ping); ("Q", Sample.pong)] Sample.ping = None.
Proof.
  apply (proj1 (getPathForItem_loops
                  [("P", Sample.ping); ("Q", Sample.pong)]
                  (λ x, x = Sample.ping ∨ x = Sample.pong)
                  ltac:(intros x [->| ->];
                        [exists Sample.pong | exists Sample.ping];
                        (split; [split; [reflexivity|]; eexists;
                                 repeat split; reflexivity | tauto])))).
  by left.
Defined.

(** An item whose parent reference carries the path of a folder below
    the root, [/drive/root:/<folder>], resolves to [<folder>/<name>] with any
    fuel at all, whatever the snapshot holds and whether or not the parent
    is in it. *)
Lemma getPathForItem_materialized (fuel : nat)
    (snapshot : Js.Map DriveItem) (item : DriveItem)
    (ref : ParentReference) (folderPath : string) :
  root item = None →
  parentReference item = Some ref →
  pr_path ref = Some (driveRootPrefix +:+ "/" +:+ folderPath) →
  getPathForItem (S fuel) snapshot item
  = Some (folderPath +:+ "/" +:+ name item).
Proof.
  intros Hroot Href Hpath. cbn [getPathForItem].
  rewrite Hroot, Href, Hpath. reflexivity.
Qed.

Lemma getPathForItem_materialized_witness :
  getPathForItem 1 [] Sample.oldTxt = Some "Docs/old.txt".
Proof.
  apply (getPathForItem_materialized 0 [] Sample.oldTxt
           {| pr_driveId := "d1"; pr_id := "F1";
              pr_path := Some "/drive/root:/Docs" |} "Docs");
    reflexivity.
Defined.

(** * More on the watch loop *)

Lemma changes_types fuel next batch change :
  changes fuel next = Some batch → change ∈ batch →
  type change = Deleted ∨ type change = Created.
Proof.
  unfold changes. intros Hbatch%mapM_Some_1 Hin.
  apply list_elem_of_lookup in Hin as [i Hi].
  destruct (Forall2_lookup_r _ _ _ _ _ Hbatch Hi) as (value & _ & Hvalue).
  simpl in Hvalue.
  destruct (getPathForItem fuel (results next) value) as [p|]; [|done].
  injection Hvalue as <-. unfold changeOf.
  destruct (deleted value); cbn [Js.truthy_obj Js.truthy_Date type]; tauto.
Qed.

(** X8. No event of any batch the generator yields has the type [Changed]:
    an item is reported as [Deleted] when its deleted flag is set and as
    [Created] otherwise. *)
Theorem watch_never_yields_Changed (fuel : nat) (this : OneDriveClient)
    (driveId : string) (start : Start) (rounds : list Round)
    (batch : list Change) (change : Change) :
  batch ∈ fst (watch fuel this driveId start rounds) →
  change ∈ batch →
  type change ≠ Changed.
Proof.
  intros Hbatch Hchange. unfold watch in Hbatch.
  destruct (loadDelta fuel this (startRemote start) (startNow start) _)
    as [baseline| |]; [|by apply elem_of_nil in Hbatch..].
  destruct (watchLoop_batches fuel this rounds _ _ batch Hbatch)
    as (r & cursor & snapshot & _ & _ & Hchanges).
  destruct (changes_types fuel snapshot batch change Hchanges Hchange)
    as [-> | ->]; discriminate.
Qed.

Lemma watch_never_yields_Changed_witness :
  type {| type := Created; path := "Docs/old.txt" |} ≠ Changed.
Proof.
  apply (watch_never_yields_Changed 5 Sample.client "d1" Sample.baseline
           [Sample.poll "1" "2" [Sample.oldTxt]]
           [{| type := Created; path := "Docs/old.txt" |}]).
  - apply list_elem_of_here.
  - apply list_elem_of_here.
Defined.

Section MoreRounds.

Context (fuel : nat) (this : OneDriveClient).

Lemma watchLoop_more rounds more : ∀ results ct,
  fst (watchLoop fuel this results ct rounds)
    `prefix_of` fst (watchLoop fuel this results ct (rounds ++ more))
  ∧ ((∀ left, snd (watchLoop fuel this results ct rounds) ≠ Suspended left) →
     watchLoop fuel this results ct (rounds ++ more)
     = watchLoop fuel this results ct rounds).
Proof.
  induction rounds as [|r rounds IH]; intros results ct.
  - cbn [app]. destruct ct.
    + rewrite !watchLoop_cancelled. split; [done|]. done.
    + cbn [watchLoop fst snd]. split; [apply prefix_nil|].
      intros H. by destruct (H results).
  - cbn [app watchLoop]. destruct ct; [done|].
    destruct (cancelWhileWaiting r); [done|].
    destruct (loadDelta fuel this (remote r) (now r) (next results))
      as [snapshot| |]; [|done..].
    destruct (cancelWhileFetching r); [done|].
    destruct (changes fuel snapshot) as [batch|]; [|done].
    destruct (IH snapshot (cancelWhileYielded r)) as [Hprefix Hsame].
    destruct (watchLoop fuel this snapshot (cancelWhileYielded r) rounds)
      as [batches ending].
    destruct (watchLoop fuel this snapshot (cancelWhileYielded r)
                (rounds ++ more)) as [batches' ending'].
    cbn [fst snd] in *. split; [by apply prefix_cons|].
    intros Hdone. specialize (Hsame Hdone). by injection Hsame as -> ->.
Qed.

End MoreRounds.

(** X9. Further rounds only add to what the generator has yielded: the
    batches of the rounds so far are the first batches of any run that goes
    on from them; and once the generator has returned or thrown, or is stuck,
    further rounds change nothing at all. *)
Theorem watch_rounds_only_add (fuel : nat) (this : OneDriveClient)
    (driveId : string) (start : Start) (rounds more : list Round) :
  fst (watch fuel this driveId start rounds)
    `prefix_of` fst (watch fuel this driveId start (rounds ++ more))
  ∧ ((∀ left, snd (watch fuel this driveId start rounds) ≠ Suspended left) →
     watch fuel this driveId start (rounds ++ more)
     = watch fuel this driveId start rounds).
Proof.
  unfold watch.
  destruct (loadDelta fuel this (startRemote start) (startNow start) _);
    [apply watchLoop_more | done..].
Qed.

Lemma watch_rounds_only_add_witness :
  watch 5 Sample.client "d1" Sample.baseline
    ([Sample.cancelledInFlight (Sample.poll "1" "2" [Sample.oldTxt])]
     ++ [Sample.poll "1" "2" [Sample.oldTxt]])
  = watch 5 Sample.client "d1" Sample.baseline
      [Sample.cancelledInFlight (Sample.poll "1" "2" [Sample.oldTxt])].
Proof.
  apply (watch_rounds_only_add 5 Sample.client "d1" Sample.baseline).
  intros left. vm_compute. discriminate.
Defined.

(** * More on the client *)

(** X10. Every request of the client goes to an https url and carries the
    bearer token: what [fetch] of the client gives depends on the service
    only through its answers to such requests, with the method asked for. *)
Theorem client_fetch_https_bearer (this : OneDriveClient)
    (remote remote' : Remote) (m : Method) (route : string) :
  (∀ request,
     method request = m →
     Js.startsWith (url request) "https:" = true →
     authorization request = "Bearer " +:+ accessToken this →
     remote request = remote' request) →
  client_fetch this remote m route = client_fetch this remote' m route.
Proof.
  intros Hsame. unfold client_fetch.
  rewrite Hsame; [reflexivity | reflexivity | | reflexivity].
  cbn [url]. destruct (Js.startsWith route "https:") eqn:Hroute;
    [exact Hroute | reflexivity].
Qed.

Lemma client_fetch_https_bearer_witness :
  client_fetch Sample.client Sample.feed GET "drives/d1/items/root/delta"
  = client_fetch Sample.client (Sample.httpsOnly Sample.feed) GET
      "drives/d1/items/root/delta".
Proof.
  apply (client_fetch_https_bearer Sample.client Sample.feed
           (Sample.httpsOnly Sample.feed) GET "drives/d1/items/root/delta").
  intros request _ Hhttps _. unfold Sample.httpsOnly. rewrite Hhttps.
  reflexivity.
Defined.

(** X11. [delete] of the client sends one DELETE request for the item at the
    path below the root of the drive, and its outcome is read off the answer:
    it resolves on a status from 200 to 299 and on 404, rejects with the
    [ResponseError] of any other status, and with a [TypeError] when the
    request itself fails. *)
Theorem client_delete_outcome (encodeURI : string → string)
    (this : OneDriveClient) (remote : Remote) (driveId p : string) :
  client_delete encodeURI this remote driveId p
  = match remote {| method := DELETE;
                    url := graphRoot +:+ "drives/" +:+ driveId
                           +:+ "/items/root:/" +:+ encodeURI p;
                    authorization := "Bearer " +:+ accessToken this |} with
    | NetworkFailure msg => Rejected (TypeError msg)
    | Answer response =>
        if ok response || (status response =? 404) then Resolved tt
        else Rejected
               (ResponseError (status response)
                  (graphRoot +:+ "drives/" +:+ driveId
                   +:+ "/items/root:/" +:+ encodeURI p)
                  (default "<unreadable>" (text response)))
    end.
Proof.
  unfold client_delete, client_fetch.
  change (Js.startsWith ("drives/" +:+ driveId +:+ "/items/root:/"
                         +:+ encodeURI p) "https:") with false.
  cbn match.
  destruct (remote _) as [response|msg]; [|reflexivity].
  destruct (ok response) eqn:Hok; cbn [orb]; [reflexivity|].
  cbn [ResponseError_is negb]. by destruct (status response =? 404).
Qed.

(** * The session of the client provider *)

Lemma demands_signed_in authentication p n : ∀ st,
  provider st = Some p →
  demands authentication n st = (st, replicate n (demandForFs p)).
Proof.
  induction n as [|n IH]; intros st Hp; cbn [demands replicate];
    [reflexivity|].
  unfold demand, getSession. rewrite Hp. by rewrite (IH st Hp).
Qed.

(** X12. The session is asked for once. However often [demandForFs] is
    called, [vscode.authentication.getSession] is called the first time only,
    and every call gives what that one session gives: if the first sign-in
    is rejected, so is every later demand, with the same error. *)
Theorem demands_ask_once (authentication : nat → outcome string) (n : nat) :
  demands authentication (S n) signedOut
  = ({| provider := Some {| session := authentication 0%nat |};
        asked := 1 |},
     replicate (S n) (demandForFs {| session := authentication 0%nat |})).
Proof.
  cbn [demands]. unfold demand at 1, getSession. cbn [provider signedOut asked].
  by rewrite (demands_signed_in authentication
                {| session := authentication 0%nat |} n).
Qed.

(** * The operations of the provider *)

Section ProviderOperations.

Import FileSystemProvider.

Context (b : Builtins) (client : ClientProvider) (service : Service).

Lemma parseUri_foreign uri :
  uri_scheme uri ≠ "onedrive" →
  parseUri uri = Rejected (Error ("Unsupported scheme: " +:+ uri_scheme uri)).
Proof.
  intros Hne. unfold parseUri, scheme.
  by destruct (String.eqb_spec (uri_scheme uri) "onedrive").
Qed.

(** X13. No operation of the provider takes a uri of another scheme: each
    throws [Unsupported scheme], whatever the service and the sign-in would
    do, and [delete] leaves no request behind. *)
Theorem foreign_uri_refused (uri other : Uri) (rightFirst : bool) :
  uri_scheme uri ≠ "onedrive" →
  let refused := Error ("Unsupported scheme: " +:+ uri_scheme uri) in
  stat b client service uri = Thrown refused
  ∧ readDirectory b client service uri = Thrown refused
  ∧ createDirectory b client service uri = Thrown refused
  ∧ readFile b client service uri = Thrown refused
  ∧ getItemIdForPath b client service uri = Thrown refused
  ∧ rename b client service rightFirst uri other = Thrown refused
  ∧ copy b client service rightFirst uri other = Thrown refused
  ∧ returned (writeFile (uriEncode b) client (sending service None) uri)
    = Rejected refused
  ∧ delete (uriEncode b) client (sending service None) uri
    = {| returned := Rejected refused; floating := [] |}.
Proof.
  intros Hne refused.
  unfold stat, readDirectory, createDirectory, readFile, getItemIdForPath,
    rename, copy, writeFile, delete.
  rewrite (parseUri_foreign uri Hne). repeat split; reflexivity.
Qed.

Lemma getFileMetadata_failed c driveId p response :
  service {| method := GET;
             url := graphRoot +:+ "drives/" +:+ driveId +:+ "/root:/" +:+ p;
             authorization := "Bearer " +:+ accessToken c |} None
  = Answer response →
  ok response = false →
  getFileMetadata b c service driveId p
  = Rejected (ResponseError (status response)
                (graphRoot +:+ "drives/" +:+ driveId +:+ "/root:/" +:+ p)
                (default "<unreadable>" (text response))).
Proof.
  intros Hanswer Hok. unfold getFileMetadata, fetchItem, client_fetch, sending.
  change (Js.startsWith ("drives/" +:+ driveId +:+ "/root:/" +:+ p) "https:")
    with false.
  cbn match. rewrite Hanswer, Hok. reflexivity.
Qed.

(** X14. What the read side makes of a failed lookup. When the service
    answers the metadata request of a path with a status outside 200 to
    299, [stat] and [getItemIdForPath] end with [FileNotFound] of the uri if
    the status is 404, and otherwise throw the [ResponseError] of the client
    as it is, with its status, url and body. *)
Theorem lookup_failure_mapping (uri : Uri) (driveId p : string)
    (c : OneDriveClient) (response : Response) :
  parseUri uri = Resolved (driveId, p) →
  demandForFs client = Resolved c →
  service {| method := GET;
             url := graphRoot +:+ "drives/" +:+ driveId +:+ "/root:/" +:+ p;
             authorization := "Bearer " +:+ accessToken c |} None
  = Answer response →
  ok response = false →
  let failure :=
    ResponseError (status response)
      (graphRoot +:+ "drives/" +:+ driveId +:+ "/root:/" +:+ p)
      (default "<unreadable>" (text response)) in
  stat b client service uri
  = (if status response =? 404 then FileNotFound uri else Thrown failure)
  ∧ getItemIdForPath b client service uri
    = (if status response =? 404 then FileNotFound uri else Thrown failure).
Proof.
  intros Huri Hclient Hanswer Hok failure.
  unfold stat, getItemIdForPath. rewrite Huri, Hclient.
  cbn [awaited mbind FsOutcome_bind outcome_bind].
  rewrite (getFileMetadata_failed c driveId p response Hanswer Hok).
  split; reflexivity.
Qed.

End ProviderOperations.

Lemma foreign_uri_refused_witness :
  FileSystemProvider.stat Sample.builtins Sample.signedIn Sample.drive
    {| uri_scheme := "file"; uri_authority := "d1"; uri_path := "/Docs" |}
  = Thrown (Error "Unsupported scheme: file").
Proof.
  apply (foreign_uri_refused Sample.builtins Sample.signedIn Sample.drive
           {| uri_scheme := "file"; uri_authority := "d1"; uri_path := "/Docs" |}
           (Sample.onedrive "d1" "/x") false).
  discriminate.
Defined.

Lemma lookup_failure_mapping_witness :
  FileSystemProvider.stat Sample.builtins Sample.signedIn Sample.drive
    (Sample.onedrive "d1" "/Docs/gone.txt")
  = FileNotFound (Sample.onedrive "d1" "/Docs/gone.txt")
  ∧ FileSystemProvider.getItemIdForPath Sample.builtins Sample.signedIn
      Sample.drive (Sample.onedrive "d1" "/Docs/gone.txt")
    = FileNotFound (Sample.onedrive "d1" "/Docs/gone.txt").
Proof.
  apply (lookup_failure_mapping Sample.builtins Sample.signedIn Sample.drive
           (Sample.onedrive "d1" "/Docs/gone.txt") "d1" "Docs/gone.txt"
           Sample.client (Sample.failure 404));
    reflexivity.
Defined.

Section RenameAndCopy.

Import FileSystemProvider.

Context (b : Builtins) (client : ClientProvider) (service : Service).

Lemma Promise_all_Done {A B : Type} rightFirst (a : FsOutcome A)
    (c : FsOutcome B) x y :
  Promise_all rightFirst a c = Done (x, y) → a = Done x ∧ c = Done y.
Proof.
  destruct a, c; cbn [Promise_all]; try discriminate;
    try (destruct rightFirst; discriminate).
  by intros [= -> ->].
Qed.

Lemma getItemIdForPath_reads (service' : Service) (uri : Uri) :
  (∀ request, method request = GET →
              service request None = service' request None) →
  getItemIdForPath b client service uri
  = getItemIdForPath b client service' uri.
Proof.
  intros Hsame.
  unfold getItemIdForPath, getFileMetadata, fetchItem, client_fetch, sending.
  destruct (parseUri uri) as [[driveId p]| |]; [|reflexivity..].
  cbn [mbind outcome_bind].
  destruct (demandForFs client) as [c| |]; [|reflexivity..].
  cbn [mbind outcome_bind]. by rewrite Hsame.
Qed.

(** X15. [rename] and [copy] come to their write only through both
    lookups. Unless the id of the old path and the id of the folder of the
    new path are both found, how they end is settled by the lookups: it is
    the same against any service that answers the GET requests alike,
    whatever that service would do with a PATCH or POST, and it is never
    success. *)
Theorem rename_copy_write_after_lookups (service' : Service)
    (rightFirst : bool) (oldUri newUri : Uri) :
  (∀ request, method request = GET →
              service request None = service' request None) →
  (∀ itemId newParentId,
     ¬ (getItemIdForPath b client service oldUri = Done itemId
        ∧ getItemIdForPath b client service (parentUri newUri)
          = Done newParentId)) →
  rename b client service rightFirst oldUri newUri
  = rename b client service' rightFirst oldUri newUri
  ∧ copy b client service rightFirst oldUri newUri
    = copy b client service' rightFirst oldUri newUri
  ∧ rename b client service rightFirst oldUri newUri ≠ Done tt
  ∧ copy b client service rightFirst oldUri newUri ≠ Done tt.
Proof.
  intros Hsame Hmissing. unfold rename, copy.
  rewrite <- !(getItemIdForPath_reads service' _ Hsame).
  destruct (parseUri oldUri) as [[driveId p]| |];
    cbn [awaited mbind FsOutcome_bind]; [|done..].
  destruct (Promise_all rightFirst _ _) as [[itemId newParentId]| | |] eqn:Hall;
    [|done..].
  apply Promise_all_Done in Hall. by destruct (Hmissing itemId newParentId).
Qed.

End RenameAndCopy.

Lemma rename_copy_write_after_lookups_witness :
  FileSystemProvider.rename Sample.builtins Sample.signedIn Sample.drive false
    (Sample.onedrive "d1" "/Docs/gone.txt") (Sample.onedrive "d1" "/Docs/b.txt")
  = FileSystemProvider.rename Sample.builtins Sample.signedIn Sample.readOnly
      false
      (Sample.onedrive "d1" "/Docs/gone.txt") (Sample.onedrive "d1" "/Docs/b.txt")
  ∧ FileSystemProvider.copy Sample.builtins Sample.signedIn Sample.drive false
      (Sample.onedrive "d1" "/Docs/gone.txt") (Sample.onedrive "d1" "/Docs/b.txt")
    = FileSystemProvider.copy Sample.builtins Sample.signedIn Sample.readOnly
        false
        (Sample.onedrive "d1" "/Docs/gone.txt")
        (Sample.onedrive "d1" "/Docs/b.txt")
  ∧ FileSystemProvider.rename Sample.builtins Sample.signedIn Sample.drive false
      (Sample.onedrive "d1" "/Docs/gone.txt") (Sample.onedrive "d1" "/Docs/b.txt")
    ≠ Done tt
  ∧ FileSystemProvider.copy Sample.builtins Sample.signedIn Sample.drive false
      (Sample.onedrive "d1" "/Docs/gone.txt") (Sample.onedrive "d1" "/Docs/b.txt")
    ≠ Done tt.
Proof.
  destruct (rename_copy_write_after_lookups Sample.builtins Sample.signedIn
              Sample.drive Sample.readOnly false
              (Sample.onedrive "d1" "/Docs/gone.txt")
              (Sample.onedrive "d1" "/Docs/b.txt"))
    as (Hrename & Hcopy & Hnever & Hnever').
  - intros request Hget. unfold Sample.readOnly. rewrite Hget. reflexivity.
  - intros itemId newParentId [Hold _]. vm_compute in Hold. discriminate.
  - repeat split; assumption.
Defined.

(** * The picker *)

Section Picker.

Import OpenOneDrive.

(** X16. The label of a drive in the picker is never empty. It is the name
    of the drive if that is not empty. Otherwise the owner decides: the user
    if the owner object has one, else the application, else the device; the
    label is the display name of that one if it is not empty, and
    [Unnamed Drive] if it is empty or the owner object has none of the
    three. *)
Theorem driveLabel_not_empty (drive : MyDrives.Drive) :
  driveLabel drive ≠ ""
  ∧ (Js.truthy_str (MyDrives.driveName drive) = true →
     MyDrives.driveName drive = Some (driveLabel drive))
  ∧ (Js.truthy_str (MyDrives.driveName drive) = false →
     ∀ who,
       (MyDrives.user (MyDrives.owner drive) = Some who
        ∨ (MyDrives.user (MyDrives.owner drive) = None
           ∧ MyDrives.application (MyDrives.owner drive) = Some who)
        ∨ (MyDrives.user (MyDrives.owner drive) = None
           ∧ MyDrives.application (MyDrives.owner drive) = None
           ∧ MyDrives.device (MyDrives.owner drive) = Some who)) →
       driveLabel drive
       = if String.eqb (MyDrives.displayName who) "" then "Unnamed Drive"
         else MyDrives.displayName who)
  ∧ (Js.truthy_str (MyDrives.driveName drive) = false →
     MyDrives.user (MyDrives.owner drive) = None →
     MyDrives.application (MyDrives.owner drive) = None →
     MyDrives.device (MyDrives.owner drive) = None →
     driveLabel drive = "Unnamed Drive").
Proof.
  assert (∀ who, MyDrives.getOwnerIdentity drive = Some who →
                 Js.truthy_str (MyDrives.driveName drive) = false →
                 driveLabel drive
                 = if String.eqb (MyDrives.displayName who) ""
                   then "Unnamed Drive" else MyDrives.displayName who)
    as Howner.
  { intros who Hwho Hname. unfold driveLabel. rewrite Hname, Hwho.
    cbn [fmap option_fmap option_map Js.truthy_str default].
    by destruct (String.eqb (MyDrives.displayName who) ""). }
  assert (MyDrives.getOwnerIdentity drive = None →
          Js.truthy_str (MyDrives.driveName drive) = false →
          driveLabel drive = "Unnamed Drive") as Hnone.
  { intros Hwho Hname. unfold driveLabel. by rewrite Hname, Hwho. }
  split; [|split; [|split]].
  - destruct (Js.truthy_str (MyDrives.driveName drive)) eqn:Hname.
    + unfold driveLabel. rewrite Hname.
      destruct (MyDrives.driveName drive) as [n|]; [|done].
      cbn [Js.truthy_str default] in *.
      destruct (String.eqb_spec n ""); done.
    + destruct (MyDrives.getOwnerIdentity drive) as [who|] eqn:Hwho.
      * rewrite (Howner who eq_refl eq_refl).
        by destruct (String.eqb_spec (MyDrives.displayName who) "").
      * by rewrite (Hnone eq_refl eq_refl).
  - intros Hname. unfold driveLabel. rewrite Hname.
    by destruct (MyDrives.driveName drive).
  - intros Hname who Hwho. apply Howner; [|exact Hname].
    unfold MyDrives.getOwnerIdentity.
    destruct Hwho as [-> | [[-> ->] | (-> & -> & ->)]]; reflexivity.
  - intros Hname Huser Happ Hdevice. apply Hnone; [|exact Hname].
    unfold MyDrives.getOwnerIdentity. by rewrite Huser, Happ, Hdevice.
Qed.

Lemma last_snoc_id (context : list DriveItem) item :
  id <$> last (context ++ [item]) = Some (id item).
Proof. by rewrite last_snoc. Qed.

Lemma browseFolders_down driveId folders x : ∀ context,
  browseFolders driveId context
    (map (λ f, FolderAccepted (Some (PickedItem f))) folders
     ++ [FolderButton (PickedItem x)])
  = ((id <$> last context) :: map (λ f, Some (id f)) folders,
     Resolved
       (Some {| command := if Js.truthy_obj (folder x)
                           then "vscode.openFolder" else "vscode.open";
                target := {| uri_scheme := FileSystemProvider.scheme;
                             uri_authority := driveId;
                             uri_path :=
                               contextPath (context ++ folders ++ [x]) |} |})).
Proof.
  induction folders as [|f folders IH]; intros context;
    cbn [map app browseFolders pickFolder_result]; [reflexivity|].
  rewrite IH, last_snoc_id, <- app_assoc. reflexivity.
Qed.

(** X17. Browsing down and opening. When the user is signed in, accepts a
    drive, accepts one folder after the other and then presses the button of
    an item, the pickers have asked for the children of the root and then
    for those of each folder entered, by its id, and one command is run:
    [vscode.openFolder] for a folder and [vscode.open] otherwise, on the uri
    of that drive whose path is a slash and the names of the folders and of
    the item joined by slashes; the provider reads that drive and those
    joined names from it. *)
Theorem openOneDrive_opens_joined_path (authentication : nat → outcome string)
    (token : string) (drivePick : DrivePickItem)
    (folders : list DriveItem) (x : DriveItem) :
  authentication 0%nat = Resolved token →
  pickDriveId drivePick ≠ "" →
  let opened :=
    {| uri_scheme := "onedrive";
       uri_authority := pickDriveId drivePick;
       uri_path := "/" +:+ Js.join "/" (map name (folders ++ [x])) |} in
  openOneDrive authentication signedOut (DriveAccepted (Some drivePick))
    (map (λ f, FolderAccepted (Some (PickedItem f))) folders
     ++ [FolderButton (PickedItem x)])
  = ({| provider := Some {| session := Resolved token |}; asked := 1 |},
     None :: map (λ f, Some (id f)) folders,
     Resolved (Some {| command := if Js.truthy_obj (folder x)
                                  then "vscode.openFolder" else "vscode.open";
                       target := opened |}))
  ∧ FileSystemProvider.parseUri opened
    = Resolved (pickDriveId drivePick,
                Js.stripLeadingSlashes (Js.join "/" (map name (folders ++ [x])))).
Proof.
  intros Htoken Hdrive opened. split; [|reflexivity].
  unfold openOneDrive, request, demand, getSession, demandForFs.
  cbn [provider signedOut asked session]. rewrite Htoken.
  cbn [mbind outcome_bind mret outcome_ret pickDriveId_result fmap option_fmap
       option_map Js.truthy_str default].
  destruct (String.eqb_spec (pickDriveId drivePick) "") as [|_]; [done|].
  cbn [negb]. unfold Datatypes.id. rewrite browseFolders_down. reflexivity.
Qed.

(** X18. Going back undoes going in: entering an item and then taking the
    way back to the parent leaves the picker with the context it had, so
    what is opened in the end is what would have been opened without the
    two steps. Taking the way back at the root changes nothing. *)
Theorem browseFolders_back (driveId : string) (context : list DriveItem)
    (item : DriveItem) (choices : list FolderChoice) :
  snd (browseFolders driveId context
         (FolderAccepted (Some (PickedItem item))
          :: FolderAccepted (Some PickedParent) :: choices))
  = snd (browseFolders driveId context choices)
  ∧ snd (browseFolders driveId [] (FolderAccepted (Some PickedParent) :: choices))
    = snd (browseFolders driveId [] choices).
Proof.
  split; cbn [browseFolders pickFolder_result].
  - rewrite removelast_last.
    by destruct (browseFolders driveId context choices).
  - cbn [removelast]. by destruct (browseFolders driveId [] choices).
Qed.

(** X19. A sign-in that fails stays failed. When the first sign-in is
    rejected, [openOneDrive] rejects with that error without showing a
    picker, and so does every later run on the same provider, which does not
    ask for a session again, even where a new sign-in would succeed. *)
Theorem openOneDrive_failed_sign_in (authentication : nat → outcome string)
    (e : JsError) (driveChoice driveChoice' : DriveChoice)
    (choices choices' : list FolderChoice) :
  authentication 0%nat = Rejected e →
  let failed := {| provider := Some {| session := Rejected e |}; asked := 1 |} in
  openOneDrive authentication signedOut driveChoice choices
  = (failed, [], Rejected e)
  ∧ openOneDrive authentication failed driveChoice' choices'
    = (failed, [], Rejected e).
Proof.
  intros Hfirst failed.
  unfold openOneDrive, request, demand, getSession, demandForFs.
  cbn [provider signedOut asked session failed]. rewrite Hfirst.
  split; reflexivity.
Qed.

End Picker.

Lemma driveLabel_not_empty_witness :
  OpenOneDrive.driveLabel Sample.appDrive = "Contoso".
Proof.
  destruct (driveLabel_not_empty Sample.appDrive) as (_ & _ & Howner & _).
  apply (Howner eq_refl
           {| MyDrives.displayName := "Contoso"; MyDrives.identityId := "app1" |}).
  right. left. split; reflexivity.
Defined.

Lemma openOneDrive_opens_joined_path_witness :
  snd (OpenOneDrive.openOneDrive Sample.steady signedOut
         (OpenOneDrive.DriveAccepted
            (Some {| OpenOneDrive.pickDriveId := "d1";
                     OpenOneDrive.label := "My files";
                     OpenOneDrive.description := "d1" |}))
         [OpenOneDrive.FolderAccepted (Some (OpenOneDrive.PickedItem Sample.docs));
          OpenOneDrive.FolderButton (OpenOneDrive.PickedItem Sample.aTxt)])
  = Resolved (Some {| OpenOneDrive.command := "vscode.open";
                      OpenOneDrive.target := Sample.onedrive "d1" "/Docs/a.txt" |}).
Proof.
  destruct (openOneDrive_opens_joined_path Sample.steady "token"
              {| OpenOneDrive.pickDriveId := "d1";
                 OpenOneDrive.label := "My files";
                 OpenOneDrive.description := "d1" |}
              [Sample.docs] Sample.aTxt) as [H _];
    [reflexivity | discriminate |].
  cbn [map app] in H. rewrite H. reflexivity.
Defined.

Lemma openOneDrive_failed_sign_in_witness :
  snd (OpenOneDrive.openOneDrive Sample.flaky
         {| provider := Some {| session := Rejected (Error "cancelled") |};
            asked := 1 |}
         OpenOneDrive.DriveHidden [])
  = Rejected (Error "cancelled").
Proof.
  destruct (openOneDrive_failed_sign_in Sample.flaky
              (Error "cancelled") OpenOneDrive.DriveHidden
              OpenOneDrive.DriveHidden [] []) as [_ H];
    [reflexivity|].
  rewrite H. reflexivity.
Defined.

(** * Failures on the write side *)

Section WriteSide.

Import FileSystemProvider.

Context (b : Builtins) (client : ClientProvider) (service : Service).

(** X7. The write side does not translate a 404. When the service refuses
    the request that writes (the PUT of [writeFile], the POST of
    [createDirectory]) with any status outside 200 to 299, 404 included, the
    operation throws the [ResponseError] of the client with that status;
    [FileNotFound] comes from the lookups only. *)
Theorem write_failure_not_translated (uri : Uri) (driveId p : string)
    (c : OneDriveClient) (response : Response) :
  parseUri uri = Resolved (driveId, p) →
  demandForFs client = Resolved c →
  ok response = false →
  (service {| method := PUT;
              url := graphRoot +:+ "drives/" +:+ driveId +:+ "/items/root:/"
                     +:+ uriEncode b p +:+ ":/content";
              authorization := "Bearer " +:+ accessToken c |} None
   = Answer response →
   returned (writeFile (uriEncode b) client (sending service None) uri)
   = Rejected
       (ResponseError (status response)
          (graphRoot +:+ "drives/" +:+ driveId +:+ "/items/root:/"
           +:+ uriEncode b p +:+ ":/content")
          (default "<unreadable>" (text response))))
  ∧
  (∀ parentId,
     getItemIdForPath b client service (parentUri uri) = Done parentId →
     service {| method := POST;
                url := graphRoot +:+ "drives/" +:+ driveId +:+ "/items/"
                       +:+ parentId +:+ "/children";
                authorization := "Bearer " +:+ accessToken c |}
       (Some (FolderBody (basename uri)))
     = Answer response →
     createDirectory b client service uri
     = Thrown
         (ResponseError (status response)
            (graphRoot +:+ "drives/" +:+ driveId +:+ "/items/" +:+ parentId
             +:+ "/children")
            (default "<unreadable>" (text response)))).
Proof.
  intros Huri Hclient Hok. split.
  - intros Hanswer. unfold writeFile, fetchJson, client_fetch, sending in *.
    rewrite Huri, Hclient.
    change (Js.startsWith ("drives/" +:+ driveId +:+ "/items/root:/"
                           +:+ uriEncode b p +:+ ":/content") "https:")
      with false.
    cbn match. cbn [returned]. rewrite Hanswer, Hok. reflexivity.
  - intros parentId Hparent Hanswer.
    unfold createDirectory. rewrite Huri. cbn [awaited mbind FsOutcome_bind].
    rewrite Hparent, Hclient. cbn [awaited mbind FsOutcome_bind].
    unfold createFolder, fetchItem, client_fetch, sending.
    change (Js.startsWith ("drives/" +:+ driveId +:+ "/items/" +:+ parentId
                           +:+ "/children") "https:")
      with false.
    cbn match. rewrite Hanswer, Hok. reflexivity.
Qed.

End WriteSide.

Lemma write_failure_not_translated_witness :
  returned (FileSystemProvider.writeFile Sample.encodeURI Sample.signedIn
              (sending (λ _ _, Answer (Sample.failure 404)) None)
              (Sample.onedrive "d1" "/Docs/new.txt"))
  = Rejected
      (ResponseError 404
         "https://graph.microsoft.com/v1.0/drives/d1/items/root:/Docs/new.txt:/content"
         "error").
Proof.
  apply (proj1 (write_failure_not_translated Sample.builtins Sample.signedIn
                  (λ _ _, Answer (Sample.failure 404))
                  (Sample.onedrive "d1" "/Docs/new.txt") "d1" "Docs/new.txt"
                  Sample.client (Sample.failure 404)
                  eq_refl eq_refl eq_refl)).
  reflexivity.
Defined.
